(** * Encrypted note service: the cipher wrapper and the note repository

    A shallow embedding of [app.py].  The functions of the application
    ([encrypt_text], [decrypt_text], [Note.to_dict], [Note.from_dict] and the
    five request handlers) are transcribed statement by statement.  What the
    application calls but does not define is modelled next to it:

    - Python's [str.encode('utf-8')] / [bytes.decode('utf-8')] (strict mode),
    - [base64.b64encode] / [base64.b64decode] (the non-validating decoder of
      [binascii.a2b_base64]),
    - the token format of [cryptography.fernet.Fernet], over two keyed
      primitives (AES-128-CBC and HMAC-SHA256) that stay abstract,
    - the table of the ORM, with SQLite's rowid rule for fresh keys and its
      64-bit keys, and the ORDER BY of the storage engine: a class, with the
      sorter of SQLite as its instance [stable_engine]. *)

From Stdlib Require Import Strings.String Strings.Ascii Strings.Byte.
From Stdlib Require Import NArith ZArith Bool Lia List Permutation Sorted.
Import ListNotations.

Set Implicit Arguments.
Set Warnings "-register-all".

(* ================================================================== *)
(** * Part I: definitions *)
(* ================================================================== *)

(** ** Python values of the model *)

Module Py.

(** A [bytes] object. *)
Definition bytes : Type := list byte.

(** A [str] object: a sequence of code points.  Python admits every code
    point below [0x110000], the surrogates [0xD800..0xDFFF] included. *)
Definition str : Type := list N.

Definition is_code_point (c : N) : Prop := (c < 0x110000)%N.
Definition is_str (s : str) : Prop := Forall is_code_point s.

Definition b2n (b : byte) : N := Byte.to_N b.

(** The byte of a number, with the wrap-around of an 8-bit store. *)
Definition n2b (n : N) : byte :=
  match Byte.of_N (n mod 256) with
  | Some b => b
  | None => "000"%byte
  end.

(** A [bytes] literal and a [str] literal (ASCII only). *)
Definition blit (s : string) : bytes := list_byte_of_string s.
Definition lit (s : string) : str := map b2n (list_byte_of_string s).

Fixpoint str_eqb (a b : str) : bool :=
  match a, b with
  | [], [] => true
  | x :: a', y :: b' => (x =? y)%N && str_eqb a' b'
  | _, _ => false
  end.

(** The exceptions that the modelled code can raise. *)
Inductive exn : Type :=
| UnicodeEncodeError      (* str.encode on a surrogate *)
| UnicodeDecodeError      (* bytes.decode on ill-formed UTF-8 *)
| BinasciiError           (* binascii.Error of b64decode *)
| InvalidToken            (* cryptography.fernet.InvalidToken *)
| ValueError              (* an IV of the wrong size *)
| AttributeError          (* a method looked up on a value without it *)
| NotFound                (* werkzeug.exceptions.NotFound, from get_or_404 *)
| OverflowError.          (* a Python int too large for an SQLite INTEGER *)

(** The outcome of an expression: a value, or a raised exception. *)
Inductive result (A : Type) : Type :=
| Ok (a : A)
| Raise (e : exn).
Arguments Raise {A} e.

Definition bind {A B} (r : result A) (k : A -> result B) : result B :=
  match r with
  | Ok a => k a
  | Raise e => Raise e
  end.

Definition fmap {A B} (f : A -> B) (r : result A) : result B :=
  bind r (fun a => Ok (f a)).

End Py.
Export Py.

Declare Scope py_scope.
Delimit Scope py_scope with py.
Notation "x <- c ;; k" := (Py.bind c (fun x => k))
  (at level 61, c at next level, right associativity) : py_scope.
Open Scope py_scope.

(** ** The UTF-8 codec in strict mode *)

Module Utf8.
Local Open Scope N_scope.

Definition is_surrogate (c : N) : bool := (0xD800 <=? c) && (c <=? 0xDFFF).

(** The bytes of one code point; a surrogate, or a number that is no code
    point, has none. *)
Definition encode_char (c : N) : result bytes :=
  if c <? 0x80 then Ok [n2b c]
  else if c <? 0x800 then
    Ok [n2b (0xC0 + c / 64); n2b (0x80 + c mod 64)]
  else if c <? 0x10000 then
    if is_surrogate c then Raise UnicodeEncodeError
    else Ok [n2b (0xE0 + c / 4096); n2b (0x80 + (c / 64) mod 64);
             n2b (0x80 + c mod 64)]
  else if c <? 0x110000 then
    Ok [n2b (0xF0 + c / 262144); n2b (0x80 + (c / 4096) mod 64);
        n2b (0x80 + (c / 64) mod 64); n2b (0x80 + c mod 64)]
  else Raise UnicodeEncodeError.

(** [s.encode('utf-8')] *)
Fixpoint encode (s : str) : result bytes :=
  match s with
  | [] => Ok []
  | c :: s' =>
      bs <- encode_char c ;;
      rest <- encode s' ;;
      Ok (bs ++ rest)
  end.

Definition is_cont (b : byte) : bool :=
  (0x80 <=? b2n b) && (b2n b <=? 0xBF).

Definition payload (b : byte) : N := b2n b mod 64.

(** [b.decode('utf-8')]: the well-formed sequences are those of a lead
    byte, the continuation bytes it announces, and a value that is neither
    overlong, nor a surrogate, nor above [0x10FFFF]. *)
Fixpoint decode (bs : bytes) : result str :=
  match bs with
  | [] => Ok []
  | b0 :: t0 =>
      let n0 := b2n b0 in
      if n0 <? 0x80 then fmap (cons n0) (decode t0)
      else if n0 <? 0xC0 then Raise UnicodeDecodeError
      else if n0 <? 0xE0 then
        match t0 with
        | b1 :: t1 =>
            let c := (n0 - 0xC0) * 64 + payload b1 in
            if is_cont b1 && (0x80 <=? c)
            then fmap (cons c) (decode t1)
            else Raise UnicodeDecodeError
        | _ => Raise UnicodeDecodeError
        end
      else if n0 <? 0xF0 then
        match t0 with
        | b1 :: b2 :: t2 =>
            let c := (n0 - 0xE0) * 4096 + payload b1 * 64 + payload b2 in
            if is_cont b1 && is_cont b2 && (0x800 <=? c)
               && negb (is_surrogate c)
            then fmap (cons c) (decode t2)
            else Raise UnicodeDecodeError
        | _ => Raise UnicodeDecodeError
        end
      else if n0 <? 0xF8 then
        match t0 with
        | b1 :: b2 :: b3 :: t3 =>
            let c := (n0 - 0xF0) * 262144 + payload b1 * 4096
                     + payload b2 * 64 + payload b3 in
            if is_cont b1 && is_cont b2 && is_cont b3
               && (0x10000 <=? c) && (c <? 0x110000)
            then fmap (cons c) (decode t3)
            else Raise UnicodeDecodeError
        | _ => Raise UnicodeDecodeError
        end
      else Raise UnicodeDecodeError
  end.

(** A code point with a UTF-8 encoding: a Unicode scalar value. *)
Definition is_scalar (c : N) : bool := (c <? 0x110000) && negb (is_surrogate c).

Definition encodable (s : str) : Prop := Forall (fun c => is_scalar c = true) s.

Definition ascii_bytes (bs : bytes) : Prop := Forall (fun b => b2n b < 128) bs.

End Utf8.

(** ** Base64 as [binascii] implements it *)

Module Base64.
Local Open Scope N_scope.

Definition table_b2a : bytes :=
  blit "ABCDEFGHIJKLMNOPQRSTUVWXYZabcdefghijklmnopqrstuvwxyz0123456789+/".

Definition PAD : byte := "="%byte.

(** [table_b2a_base64[n]] *)
Definition b2a (n : N) : byte := nth (N.to_nat n) table_b2a PAD.

Fixpoint index_of (c : byte) (l : bytes) (i : N) : option N :=
  match l with
  | [] => None
  | x :: l' => if Byte.eqb c x then Some i else index_of c l' (i + 1)
  end.

(** [table_a2b_base64[c]], [None] for the entries outside the alphabet. *)
Definition a2b (c : byte) : option N := index_of c table_b2a 0.

(** [base64.b64encode(s)] *)
Fixpoint b64encode (s : bytes) : bytes :=
  match s with
  | [] => []
  | [x] =>
      let a := b2n x in
      [b2a (a / 4); b2a ((a mod 4) * 16); PAD; PAD]
  | [x; y] =>
      let a := b2n x in let b := b2n y in
      [b2a (a / 4); b2a ((a mod 4) * 16 + b / 16); b2a ((b mod 16) * 4);
       PAD]
  | x :: y :: z :: rest =>
      let a := b2n x in let b := b2n y in let c := b2n z in
      b2a (a / 4) :: b2a ((a mod 4) * 16 + b / 16)
        :: b2a ((b mod 16) * 4 + c / 64) :: b2a (c mod 64)
        :: b64encode rest
  end.

(** The loop of [binascii.a2b_base64] with [strict_mode] off.  The state is
    the position in the current quad, the bits left over from the previous
    character, and the number of pad characters seen since the last data
    character.  A character outside the alphabet is skipped; a pad that
    completes a quad ends the decoding, whatever follows it; input that
    ends inside a quad is an error. *)
Fixpoint a2b_loop (s : bytes) (quad_pos leftchar pads : N)
  : result bytes :=
  match s with
  | [] => if quad_pos =? 0 then Ok [] else Raise BinasciiError
  | this_ch :: s' =>
      if Byte.eqb this_ch PAD then
        if 2 <=? quad_pos then
          if 4 <=? quad_pos + (pads + 1) then Ok []
          else a2b_loop s' quad_pos leftchar (pads + 1)
        else a2b_loop s' quad_pos leftchar pads
      else
        match a2b this_ch with
        | None => a2b_loop s' quad_pos leftchar pads
        | Some v =>
            if quad_pos =? 0 then a2b_loop s' 1 v 0
            else if quad_pos =? 1 then
              fmap (cons (n2b (leftchar * 4 + v / 16)))
                   (a2b_loop s' 2 (v mod 16) 0)
            else if quad_pos =? 2 then
              fmap (cons (n2b (leftchar * 16 + v / 4)))
                   (a2b_loop s' 3 (v mod 4) 0)
            else
              fmap (cons (n2b (leftchar * 64 + v)))
                   (a2b_loop s' 0 0 0)
        end
  end.

(** [base64.b64decode(s)] *)
Definition b64decode (s : bytes) : result bytes := a2b_loop s 0 0 0.

(** [bytes.translate] with the two tables of the URL-safe alphabet. *)
Definition urlsafe_encode_translation (c : byte) : byte :=
  if Byte.eqb c "+"%byte then "-"%byte
  else if Byte.eqb c "/"%byte then "_"%byte else c.

Definition urlsafe_decode_translation (c : byte) : byte :=
  if Byte.eqb c "-"%byte then "+"%byte
  else if Byte.eqb c "_"%byte then "/"%byte else c.

(** [base64.urlsafe_b64encode(s)] *)
Definition urlsafe_b64encode (s : bytes) : bytes :=
  map urlsafe_encode_translation (b64encode s).

(** [base64.urlsafe_b64decode(s)] *)
Definition urlsafe_b64decode (s : bytes) : result bytes :=
  b64decode (map urlsafe_decode_translation s).

(** The characters of an encoded text: alphabet or pad. *)
Definition b64_char (c : byte) : Prop := c = PAD \/ exists n, n < 64 /\ c = b2a n.

(** What is checked of each entry of the table. *)
Definition entry_ok (n : N) : bool :=
  match a2b (b2a n) with Some v => v =? n | None => false end
  && negb (Byte.eqb (b2a n) PAD)
  && (b2n (b2a n) <? 128)
  && Byte.eqb (urlsafe_decode_translation
                 (urlsafe_encode_translation (b2a n))) (b2a n)
  && (b2n (urlsafe_encode_translation (b2a n)) <? 128).

End Base64.

(** ** The Fernet token format *)

Module Fernet.
Import Base64.

(** The two primitives under the process key ([ENCRYPTION_KEY], loaded once
    at start-up): AES-128 in CBC mode under the encryption half of the key
    and HMAC-SHA256 under the signing half.  They are not modelled further. *)
Class Primitives : Type := {
  aes_cbc_encrypt : bytes -> bytes -> bytes;    (* iv, padded plaintext *)
  aes_cbc_decrypt : bytes -> bytes -> bytes;    (* iv, ciphertext *)
  hmac_sha256 : bytes -> bytes
}.

(** What the token format needs of them: CBC keeps the length of
    block-aligned data and decryption undoes encryption under the same IV;
    a tag has 32 bytes. *)
Record Lawful (P : Primitives) : Prop := {
  cbc_length : forall iv m,
    length iv = 16 -> Nat.modulo (length m) 16 = 0 ->
    length (aes_cbc_encrypt iv m) = length m;
  cbc_inverse : forall iv m,
    length iv = 16 -> Nat.modulo (length m) 16 = 0 ->
    aes_cbc_decrypt iv (aes_cbc_encrypt iv m) = m;
  hmac_length : forall d, length (hmac_sha256 d) = 32
}.

(** What one call of [Fernet.encrypt] reads from its environment:
    [int(time.time())] and the source behind [os.urandom]. *)
Record entropy : Type := {
  time_time : N;
  urandom : nat -> byte
}.

(** [os.urandom(n)] *)
Definition os_urandom (e : entropy) (n : nat) : bytes :=
  map (urandom e) (seq 0 n).

(** [n.to_bytes(length=k, byteorder="big")]; the clock reading is below
    [2^64], the reduction keeps the function total. *)
Fixpoint to_bytes (k : nat) (n : N) : bytes :=
  match k with
  | O => []
  | S k' => to_bytes k' (n / 256) ++ [n2b n]
  end.

(** Python slices with the bounds that the token code uses. *)
Definition slice (a b : nat) (d : bytes) : bytes := firstn (b - a) (skipn a d).
Definition drop_last (k : nat) (d : bytes) : bytes := firstn (length d - k) d.
Definition take_last (k : nat) (d : bytes) : bytes := skipn (length d - k) d.

(** [padding.PKCS7(128).padder()] *)
Definition pkcs7_pad (m : bytes) : bytes :=
  let n := 16 - Nat.modulo (length m) 16 in
  m ++ repeat (n2b (N.of_nat n)) n.

Definition all_eqb (b : byte) (l : bytes) : bool := forallb (Byte.eqb b) l.

(** [padding.PKCS7(128).unpadder()]: [update] then [finalize].  The last
    block must be complete and end in [p] bytes of value [p], [1 <= p <= 16];
    [None] stands for the [ValueError] of [finalize]. *)
Definition pkcs7_unpad (p : bytes) : option bytes :=
  if (length p =? 0)%nat || negb (Nat.modulo (length p) 16 =? 0)%nat then None
  else
    let pad_size := N.to_nat (b2n (last p "000"%byte)) in
    if (1 <=? pad_size)%nat && (pad_size <=? 16)%nat
       && all_eqb (last p "000"%byte) (take_last pad_size p)
    then Some (drop_last pad_size p)
    else None.

Section WithPrimitives.
Context {P : Primitives}.

(** [Fernet._encrypt_from_parts(data, current_time, iv)] *)
Definition encrypt_from_parts (data : bytes) (current_time : N)
           (iv : bytes) : bytes :=
  let padded_data := pkcs7_pad data in
  let ciphertext := aes_cbc_encrypt iv padded_data in
  let basic_parts :=
    ["128"%byte] ++ to_bytes 8 current_time ++ iv ++ ciphertext in
  let hmac := hmac_sha256 basic_parts in
  urlsafe_b64encode (basic_parts ++ hmac).

(** [Fernet.encrypt(data)] *)
Definition encrypt (e : entropy) (data : bytes) : bytes :=
  encrypt_from_parts data (time_time e) (os_urandom e 16).

(** [Fernet._get_unverified_token_data(token)]; the timestamp it also
    returns is not used when no [ttl] is given. *)
Definition get_unverified_token_data (token : bytes) : result bytes :=
  match urlsafe_b64decode token with
  | Raise _ => Raise InvalidToken
  | Ok data =>
      match data with
      | [] => Raise InvalidToken
      | v :: _ =>
          if negb (Byte.eqb v "128"%byte) then Raise InvalidToken
          else if (length data <? 9)%nat then Raise InvalidToken
          else Ok data
      end
  end.

(** [Fernet._verify_signature(data)] *)
Definition verify_signature (data : bytes) : result unit :=
  if list_eq_dec Byte.byte_eq_dec
       (hmac_sha256 (drop_last 32 data)) (take_last 32 data)
  then Ok tt else Raise InvalidToken.

(** [Fernet._decrypt_data(data, timestamp, None)] *)
Definition decrypt_data (data : bytes) : result bytes :=
  _ <- verify_signature data ;;
  let iv := slice 9 25 data in
  let ciphertext := drop_last 32 (skipn 25 data) in
  if negb (length iv =? 16)%nat then Raise ValueError
  else if negb (Nat.modulo (length ciphertext) 16 =? 0)%nat
  then Raise InvalidToken
  else
    let plaintext_padded := aes_cbc_decrypt iv ciphertext in
    match pkcs7_unpad plaintext_padded with
    | None => Raise InvalidToken
    | Some unpadded => Ok unpadded
    end.

(** [Fernet.decrypt(token)] with [ttl=None] *)
Definition decrypt (token : bytes) : result bytes :=
  data <- get_unverified_token_data token ;;
  decrypt_data data.

(** The bytes under the URL-safe encoding of a token. *)
Definition token_data (data : bytes) (current_time : N) (iv : bytes)
  : bytes :=
  let basic_parts :=
    ["128"%byte] ++ to_bytes 8 current_time ++ iv
      ++ aes_cbc_encrypt iv (pkcs7_pad data) in
  basic_parts ++ hmac_sha256 basic_parts.

End WithPrimitives.

(** Stand-in primitives, to run the model on concrete inputs: a byte-wise
    XOR with the IV repeated over the data, and a 32-byte tag made of the
    running sum of the data.  They satisfy [Lawful] and offer no security. *)
Definition xor_byte (a b : byte) : byte := n2b (N.lxor (b2n a) (b2n b)).

Fixpoint xor_stream (iv cur m : bytes) : bytes :=
  match m with
  | [] => []
  | x :: m' =>
      match cur with
      | k :: cur' => xor_byte x k :: xor_stream iv cur' m'
      | [] =>
          match iv with
          | k :: cur' => xor_byte x k :: xor_stream iv cur' m'
          | [] => x :: xor_stream iv [] m'
          end
      end
  end.

Definition sum_tag (d : bytes) : bytes :=
  let s := fold_left (fun acc b => (acc * 31 + b2n b + 7)%N) d 1%N in
  map (fun i => n2b (s / N.of_nat (i + 1) + N.of_nat i)) (seq 0 32).

Definition stand_in : Primitives := {|
  aes_cbc_encrypt := fun iv m => xor_stream iv iv m;
  aes_cbc_decrypt := fun iv c => xor_stream iv iv c;
  hmac_sha256 := sum_tag
|}.

Definition xor_pair_ok (a k : N) : bool :=
  Byte.eqb (xor_byte (xor_byte (n2b a) (n2b k)) (n2b k)) (n2b a).

End Fernet.

(** ** The application *)

Module App.
Import Base64 Fernet.

(** *** Request bodies *)

(** What [request.json] evaluates to.  Numbers are modelled by their integer
    values; the application only tests them for truth. *)
Inductive json : Type :=
| JNull
| JBool (b : bool)
| JNum (n : Z)
| JStr (s : str)
| JArr (items : list json)
| JObj (fields : list (str * json)).

(** [bool(v)]: [None], [False], [0] and the empty string, list and dict are
    false. *)
Definition truthy (v : json) : bool :=
  match v with
  | JNull => false
  | JBool b => b
  | JNum n => negb (n =? 0)%Z
  | JStr s => negb (length s =? 0)%nat
  | JArr l => negb (length l =? 0)%nat
  | JObj l => negb (length l =? 0)%nat
  end.

(** [v.encode('utf-8')]: only a [str] has the method. *)
Definition method_encode (v : json) : result bytes :=
  match v with
  | JStr s => Utf8.encode s
  | _ => Raise AttributeError
  end.

(** The binding of [key] in the fields of an object, in the order of the
    request text: [json.loads] keeps the last binding of a repeated key. *)
Definition lookup (key : str) (fields : list (str * json)) : option json :=
  fold_left (fun acc kv => if str_eqb key (fst kv) then Some (snd kv) else acc)
            fields None.

(** [dict.get(key, default)] on the fields of an object. *)
Definition dict_get (fields : list (str * json)) (key : str) (default : json)
  : json :=
  match lookup key fields with
  | Some v => v
  | None => default
  end.

(** [data.get(key, default)]: only a [dict] has the method. *)
Definition method_get (data : json) (key : str) (default : json)
  : result json :=
  match data with
  | JObj fields => Ok (dict_get fields key default)
  | _ => Raise AttributeError
  end.

(** *** Records *)

(** [datetime], compared field by field from the year down. *)
Record datetime : Type := {
  year : N; month : N; day : N;
  hour : N; minute : N; second : N; microsecond : N
}.

Definition dt_fields (t : datetime) : list N :=
  [year t; month t; day t; hour t; minute t; second t; microsecond t].

(** The comparison of two lists of numbers, the first difference deciding. *)
Fixpoint lex_compare (a b : list N) : comparison :=
  match a, b with
  | [], [] => Eq
  | [], _ :: _ => Lt
  | _ :: _, [] => Gt
  | x :: a', y :: b' =>
      match (x ?= y)%N with
      | Eq => lex_compare a' b'
      | c => c
      end
  end.

(** The comparison of two [datetime] objects: that of their fields. *)
Definition dt_compare (a b : datetime) : comparison :=
  lex_compare (dt_fields a) (dt_fields b).

Definition dt_leb (a b : datetime) : bool :=
  match dt_compare a b with Gt => false | _ => true end.

Definition dt_ltb (a b : datetime) : bool :=
  match dt_compare a b with Lt => true | _ => false end.

(** The decimal digits of [n], at most [fuel] of them. *)
Fixpoint digits (fuel : nat) (n : N) : str :=
  match fuel with
  | O => []
  | S fuel' =>
      if (n <? 10)%N then [(48 + n)%N]
      else digits fuel' (n / 10)%N ++ [(48 + n mod 10)%N]
  end.

(** The digits of [n] after the zeros that fill [width] columns. *)
Definition zero_pad (width : nat) (n : N) : str :=
  let d := digits 20 n in repeat 48%N (width - length d) ++ d.

(** [t.strftime('%Y-%m-%d %H:%M:%S')]; the year as the C library of Linux
    prints it, without padding (the clock reads years of four digits). *)
Definition strftime (t : datetime) : str :=
  digits 20 (year t) ++ lit "-" ++ zero_pad 2 (month t) ++ lit "-"
    ++ zero_pad 2 (day t) ++ lit " " ++ zero_pad 2 (hour t) ++ lit ":"
    ++ zero_pad 2 (minute t) ++ lit ":" ++ zero_pad 2 (second t).

(** A row of the table [note]. *)
Record Note : Type := {
  id : Z;
  title_encrypted : str;
  content_encrypted : str;
  timestamp : datetime
}.

(** A [Note] object as [from_dict] builds it: the two encrypted columns,
    with no key and no timestamp before the INSERT. *)
Record unsaved : Type := {
  new_title_encrypted : str;
  new_content_encrypted : str
}.

(** The dictionary that [to_dict] returns. *)
Record view : Type := {
  v_id : Z;
  v_title : str;
  v_content : str;
  v_timestamp : str
}.

(** *** The process: table and standard output *)

(** A line printed by [decrypt_text]: the text ['Decryption error: '] and
    the exception. *)
Inductive line : Type :=
| DecryptionErrorLine (e : exn).

Record world : Type := {
  table : list Note;          (* the rows, in the order of insertion *)
  stdout : list line
}.

(** The state after [db.create_all()] on a fresh database. *)
Definition initial : world := {| table := []; stdout := [] |}.

(** Code that reads and writes the world and may raise. *)
Definition M (A : Type) : Type := world -> result A * world.

Definition ret {A} (a : A) : M A := fun w => (Ok a, w).

Definition bindM {A B} (c : M A) (k : A -> M B) : M B :=
  fun w =>
    match c w with
    | (Ok a, w') => k a w'
    | (Raise e, w') => (Raise e, w')
    end.

Definition lift {A} (r : result A) : M A := fun w => (r, w).

(** [try: body  except Exception as e: handler(e)] *)
Definition try_except {A} (body : M A) (handler : exn -> M A) : M A :=
  fun w =>
    match body w with
    | (Ok a, w') => (Ok a, w')
    | (Raise e, w') => handler e w'
    end.

Definition print (l : line) : M unit :=
  fun w => (Ok tt, {| table := table w; stdout := stdout w ++ [l] |}).

(** The world after more lines were printed. *)
Definition log (w : world) (ls : list line) : world :=
  {| table := table w; stdout := stdout w ++ ls |}.

Notation "x <~ c ;; k" := (bindM c (fun x => k))
  (at level 61, c at next level, right associativity).

Fixpoint mapM {A B} (f : A -> M B) (l : list A) : M (list B) :=
  match l with
  | [] => ret []
  | a :: l' =>
      b <~ f a ;;
      bs <~ mapM f l' ;;
      ret (b :: bs)
  end.

(** The text returned for a field that does not decrypt. *)
Definition decryption_error : str := lit "[Decryption Error]".

(** The ORDER BY of the storage engine. *)
Class Engine : Type := {
  order_by_timestamp_desc : list Note -> list Note
}.

(** [a] may come before [b] in a listing by descending timestamp. *)
Definition newer_first (a b : Note) : Prop :=
  dt_leb (timestamp b) (timestamp a) = true.

(** What SQL promises of [SELECT ... ORDER BY timestamp DESC]: every row
    once, and no row before one with a later timestamp.  The order of rows
    with equal timestamps is not fixed. *)
Definition SqlOrderBy (E : Engine) : Prop :=
  forall rows,
    Permutation rows (order_by_timestamp_desc rows)
    /\ StronglySorted newer_first (order_by_timestamp_desc rows).

(** SQLite's rule for the key of a new row of an INTEGER PRIMARY KEY table:
    one more than the largest key in use, 1 in an empty table. *)
Definition next_rowid (rows : list Note) : Z :=
  match map id rows with
  | [] => 1%Z
  | x :: xs => (1 + fold_left Z.max xs x)%Z
  end.

(** *** Responses *)

Inductive body : Type :=
| Empty
| NoteView (v : view)
| NoteList (l : list view)
| Health (notes_count : nat)
| Page
| ErrorPage.

Record response : Type := {
  status : N;
  payload : body
}.

(** What one request reads from its environment: the clock of
    [datetime.utcnow()] and the entropy of the two calls of the cipher. *)
Record request_env : Type := {
  utcnow : datetime;
  title_entropy : entropy;
  content_entropy : entropy
}.

Section WithPlatform.
Context {P : Primitives} {E : Engine}.

(** *** The cipher wrapper *)

(** [encrypt_text(text)]; [text] is whatever [data.get] returned. *)
Definition encrypt_text (e : entropy) (text : json) : result str :=
  if negb (truthy text) then Ok []
  else
    raw <- method_encode text ;;
    let encrypted := Fernet.encrypt e raw in
    Utf8.decode (b64encode encrypted).

(** The body of the [try] statement of [decrypt_text]. *)
Definition decrypt_text_try (encrypted_text : str) : result str :=
  raw <- Utf8.encode encrypted_text ;;
  encrypted <- b64decode raw ;;
  decrypted <- Fernet.decrypt encrypted ;;
  Utf8.decode decrypted.

(** [decrypt_text(encrypted_text)] *)
Definition decrypt_text (encrypted_text : str) : M str :=
  if (length encrypted_text =? 0)%nat then ret []
  else
    try_except
      (lift (decrypt_text_try encrypted_text))
      (fun e =>
         _ <~ print (DecryptionErrorLine e) ;;
         ret decryption_error).

(** What [decrypt_text] returns for a stored field, and what it prints
    on the way. *)
Definition shown (encrypted_text : str) : str :=
  match fst (decrypt_text encrypted_text initial) with
  | Ok s => s
  | Raise _ => []
  end.

Definition printed (encrypted_text : str) : list line :=
  stdout (snd (decrypt_text encrypted_text initial)).

(** The dictionary of a row whose fields show as [shown] says. *)
Definition view_of (n : Note) : view :=
  {| v_id := id n;
     v_title := shown (title_encrypted n);
     v_content := shown (content_encrypted n);
     v_timestamp := strftime (timestamp n) |}.

(** *** The model class *)

(** [Note.to_dict] *)
Definition to_dict (self : Note) : M view :=
  title <~ decrypt_text (title_encrypted self) ;;
  content <~ decrypt_text (content_encrypted self) ;;
  ret {| v_id := id self;
         v_title := title;
         v_content := content;
         v_timestamp := strftime (timestamp self) |}.

(** [Note.from_dict] *)
Definition from_dict (env : request_env) (data : json) : result unsaved :=
  title <- method_get data (lit "title") (JStr (lit "Untitled")) ;;
  title_encrypted <- encrypt_text (title_entropy env) title ;;
  content <- method_get data (lit "content") (JStr (lit "")) ;;
  content_encrypted <- encrypt_text (content_entropy env) content ;;
  Ok {| new_title_encrypted := title_encrypted;
        new_content_encrypted := content_encrypted |}.

(** *** The session *)

(** [Note.query.get_or_404(note_id)]: the row of the key, [NotFound] when no
    row has it.  The route [<int:note_id>] passes any natural number, and the
    keys of SQLite are 64-bit integers: a number from [2 ^ 63] is the key of
    no row, and the driver raises [OverflowError] when it binds it to the
    query. *)
Definition get_or_404 (note_id : Z) : M Note :=
  fun w =>
    match find (fun n => (id n =? note_id)%Z) (table w) with
    | Some n => (Ok n, w)
    | None =>
        if (note_id <? 2 ^ 63)%Z then (Raise NotFound, w)
        else (Raise OverflowError, w)
    end.

(** [db.session.add(note); db.session.commit()]: the INSERT gives the row
    its key and, by the column default, its timestamp. *)
Definition add_and_commit (env : request_env) (note : unsaved) : M Note :=
  fun w =>
    let row := {| id := next_rowid (table w);
                  title_encrypted := new_title_encrypted note;
                  content_encrypted := new_content_encrypted note;
                  timestamp := utcnow env |} in
    (Ok row, {| table := table w ++ [row]; stdout := stdout w |}).

(** [db.session.commit()] after the attributes of [note] were assigned:
    the UPDATE of the row with its key. *)
Definition commit_update (note : Note) : M unit :=
  fun w =>
    (Ok tt,
     {| table := map (fun r => if (id r =? id note)%Z then note else r)
                     (table w);
        stdout := stdout w |}).

(** [db.session.delete(note); db.session.commit()] *)
Definition delete_and_commit (note : Note) : M unit :=
  fun w =>
    (Ok tt,
     {| table := filter (fun r => negb (id r =? id note)%Z) (table w);
        stdout := stdout w |}).

(** *** The request handlers *)

(** [GET /] *)
Definition index : M response :=
  ret {| status := 200; payload := Page |}.

(** [GET /api/notes] *)
Definition get_notes : M response :=
  fun w =>
    (notes <~ ret (order_by_timestamp_desc (table w)) ;;
     views <~ mapM to_dict notes ;;
     ret {| status := 200; payload := NoteList views |}) w.

(** [POST /api/notes] with the body [data] *)
Definition create_note (env : request_env) (data : json) : M response :=
  note <~ lift (from_dict env data) ;;
  note <~ add_and_commit env note ;;
  v <~ to_dict note ;;
  ret {| status := 201; payload := NoteView v |}.

(** [PUT /api/notes/<note_id>] with the body [data] *)
Definition update_note (env : request_env) (note_id : Z) (data : json)
  : M response :=
  note <~ get_or_404 note_id ;;
  title <~ lift (method_get data (lit "title") (JStr (lit "Untitled"))) ;;
  new_title <~ lift (encrypt_text (title_entropy env) title) ;;
  content <~ lift (method_get data (lit "content") (JStr (lit ""))) ;;
  new_content <~ lift (encrypt_text (content_entropy env) content) ;;
  let note := {| id := id note;
                 title_encrypted := new_title;
                 content_encrypted := new_content;
                 timestamp := utcnow env |} in
  _ <~ commit_update note ;;
  v <~ to_dict note ;;
  ret {| status := 200; payload := NoteView v |}.

(** [DELETE /api/notes/<note_id>] *)
Definition delete_note (note_id : Z) : M response :=
  note <~ get_or_404 note_id ;;
  _ <~ delete_and_commit note ;;
  ret {| status := 204; payload := Empty |}.

(** [GET /api/health] *)
Definition health_check : M response :=
  fun w => ret {| status := 200; payload := Health (length (table w)) |} w.

(** What the framework makes of a handler: its response, or the page of
    the error status when it raised ([NotFound] is 404, any other
    exception 500). *)
Definition serve (h : M response) (w : world) : response * world :=
  match h w with
  | (Ok r, w') => (r, w')
  | (Raise NotFound, w') => ({| status := 404; payload := ErrorPage |}, w')
  | (Raise _, w') => ({| status := 500; payload := ErrorPage |}, w')
  end.

(** *** Requests and reachable tables *)

Inductive request : Type :=
| GetNotes
| CreateNote (env : request_env) (data : json)
| UpdateNote (env : request_env) (note_id : Z) (data : json)
| DeleteNote (note_id : Z)
| HealthCheck.

Definition handler (r : request) : M response :=
  match r with
  | GetNotes => get_notes
  | CreateNote env data => create_note env data
  | UpdateNote env note_id data => update_note env note_id data
  | DeleteNote note_id => delete_note note_id
  | HealthCheck => health_check
  end.

Definition step (w : world) (r : request) : world := snd (serve (handler r) w).

Definition run (rs : list request) (w : world) : world := fold_left step rs w.

Definition reachable (w : world) : Prop := exists rs, w = run rs initial.

End WithPlatform.

(** *** The sorter of SQLite *)

Fixpoint insert_by (before : Note -> Note -> bool) (x : Note)
         (l : list Note) : list Note :=
  match l with
  | [] => [x]
  | y :: l' => if before x y then x :: l else y :: insert_by before x l'
  end.

Definition sort_by (before : Note -> Note -> bool) (rows : list Note)
  : list Note :=
  fold_right (insert_by before) [] rows.

(** The ORDER BY of SQLite, the database of [sqlite:///notes.db]: the rows
    are read in the order of the table and a row passes only rows of a
    strictly later timestamp, so that rows of strictly later timestamps come
    first and rows of equal timestamps stay in the order of the table. *)
Definition stable_engine : Engine := {|
  order_by_timestamp_desc :=
    sort_by (fun x y => dt_leb (timestamp y) (timestamp x))
|}.

(** *** Vocabulary of the statements *)

(** The values that [from_dict] and [update_note] read from the fields of
    a request: [data.get('title', 'Untitled')] and
    [data.get('content', '')]. *)
Definition title_of (fields : list (str * json)) : json :=
  dict_get fields (lit "title") (JStr (lit "Untitled")).

Definition content_of (fields : list (str * json)) : json :=
  dict_get fields (lit "content") (JStr (lit "")).

(** The request values that [encrypt_text] accepts: those that count as
    false, and the texts with a UTF-8 encoding. *)
Definition storable (v : json) : Prop :=
  truthy v = false \/ exists s, v = JStr s /\ Utf8.encodable s.

(** The request bodies that [from_dict] and [update_note] accept: an object
    whose title and content, or their defaults, are stored. *)
Definition acceptable (data : json) : Prop :=
  exists fields,
    data = JObj fields
    /\ storable (title_of fields) /\ storable (content_of fields).

(** The rows whose timestamp is [t]. *)
Definition stamped (t : datetime) (n : Note) : bool :=
  match dt_compare (timestamp n) t with
  | Eq => true
  | _ => false
  end.

(** The order of two rows by their keys. *)
Definition key_lt (a b : Note) : Prop := (id a < id b)%Z.

(** The row that a request writes under [key]. *)
Definition row_of (env : request_env) (key : Z) (t c : str) : Note :=
  {| id := key; title_encrypted := t; content_encrypted := c;
     timestamp := utcnow env |}.

(** The text that a request value stands for once stored: the string
    itself; the values that count as false are stored as the empty text. *)
Definition text_of (v : json) : str :=
  match v with
  | JStr s => s
  | _ => []
  end.

(** [s] with the character at index [i] replaced by [b]. *)
Fixpoint replace_at (i : nat) (b : N) (s : str) : str :=
  match s, i with
  | [], _ => []
  | _ :: s', O => b :: s'
  | x :: s', S i' => x :: replace_at i' b s'
  end.


(** A clock reading, an entropy source and a request environment to run
    the model on. *)
Definition sample_time : datetime :=
  {| year := 2024; month := 5; day := 17;
     hour := 9; minute := 30; second := 0; microsecond := 125000 |}.

Definition sample_entropy : entropy :=
  {| time_time := 1715938200;
     urandom := fun i => n2b (N.of_nat (i * 37 + 11)) |}.

Definition other_entropy : entropy :=
  {| time_time := 1715938260;
     urandom := fun i => n2b (N.of_nat (i * 101 + 3)) |}.

Definition sample_env : request_env :=
  {| utcnow := sample_time;
     title_entropy := sample_entropy;
     content_entropy := sample_entropy |}.

(** The note of the end-to-end scenario, and the table that holds it. *)
Definition groceries : json :=
  JObj [(lit "title", JStr (lit "Groceries"));
        (lit "content", JStr (lit "milk, eggs"))].

Definition sample_world : world :=
  @run stand_in stable_engine [CreateNote sample_env groceries] initial.

(** The text stored for the one-letter plaintext ['a']. *)
Definition sample_ciphertext : str :=
  match @encrypt_text stand_in sample_entropy (JStr (lit "a")) with
  | Ok c => c
  | Raise _ => []
  end.

(** Requests that create a note with a title only, at a given second of the
    clock. *)
Definition at_second (s : N) : datetime :=
  {| year := 2024; month := 5; day := 17;
     hour := 9; minute := 30; second := s; microsecond := 0 |}.

Definition env_at (s : N) : request_env :=
  {| utcnow := at_second s;
     title_entropy := sample_entropy;
     content_entropy := sample_entropy |}.

Definition titled (s : string) : json := JObj [(lit "title", JStr (lit s))].

(** Notes A, B, C created one second apart. *)
Definition rising_world : world :=
  @run stand_in stable_engine
       [CreateNote (env_at 1) (titled "A"); CreateNote (env_at 2) (titled "B");
        CreateNote (env_at 3) (titled "C")]
       initial.

(** Notes A, B created at the same reading of the clock. *)
Definition tie_world : world :=
  @run stand_in stable_engine
       [CreateNote (env_at 1) (titled "A"); CreateNote (env_at 1) (titled "B")]
       initial.

(** A note created and deleted, then another note created. *)
Definition reuse_world : world :=
  @run stand_in stable_engine
       [CreateNote (env_at 1) (titled "A"); DeleteNote 1;
        CreateNote (env_at 2) (titled "B")]
       initial.

(** A note created with the empty string for title. *)
Definition empty_title_world : world :=
  @run stand_in stable_engine [CreateNote sample_env (titled "")] initial.

(** A stored field in order: empty, or a text that the [try] block of
    [decrypt_text] reads back as a non-empty text. *)
Definition well_stored {P : Primitives} (c : str) : Prop :=
  c = [] \/ exists s, s <> [] /\ decrypt_text_try c = Ok s.

Definition row_well_stored {P : Primitives} (n : Note) : Prop :=
  well_stored (title_encrypted n) /\ well_stored (content_encrypted n).

End App.

(** ** The key file and the start of the process *)

Module KeyStore.
Import Base64 Fernet.

(** The regular files that the process sees in its working directory: path
    and content, the first entry of a path being the file. *)
Definition filesystem : Type := list (str * bytes).

(** [os.path.exists(path)] *)
Fixpoint path_exists (path : str) (fs : filesystem) : bool :=
  match fs with
  | [] => false
  | (p, _) :: fs' => str_eqb path p || path_exists path fs'
  end.

(** [open(path, 'rb').read()] on a file that exists. *)
Fixpoint read_file (path : str) (fs : filesystem) : bytes :=
  match fs with
  | [] => []
  | (p, content) :: fs' =>
      if str_eqb path p then content else read_file path fs'
  end.

(** [open(path, 'wb').write(content)]: the file is created, or replaced. *)
Definition write_file (path : str) (content : bytes) (fs : filesystem)
  : filesystem :=
  (path, content) :: filter (fun f => negb (str_eqb path (fst f))) fs.

Definition key_file : str := lit "secret.key".

(** [Fernet.generate_key()] *)
Definition generate_key (e : entropy) : bytes :=
  urlsafe_b64encode (os_urandom e 32).

(** [get_or_create_key()] *)
Definition get_or_create_key (e : entropy) (fs : filesystem)
  : bytes * filesystem :=
  if path_exists key_file fs then (read_file key_file fs, fs)
  else
    let key := generate_key e in
    (key, write_file key_file key fs).

(** [Fernet(key)]: the signing key and the encryption key, or the
    [ValueError] of a key that is not the encoding of 32 bytes. *)
Definition fernet_init (key : bytes) : result (bytes * bytes) :=
  match urlsafe_b64decode key with
  | Raise _ => Raise ValueError
  | Ok k =>
      if negb (length k =? 32)%nat then Raise ValueError
      else Ok (firstn 16 k, skipn 16 k)
  end.

(** [ENCRYPTION_KEY = get_or_create_key(); cipher = Fernet(ENCRYPTION_KEY)] *)
Definition initialize_encryption (e : entropy) (fs : filesystem)
  : result (bytes * bytes) * filesystem :=
  let (ENCRYPTION_KEY, fs') := get_or_create_key e fs in
  (fernet_init ENCRYPTION_KEY, fs').

End KeyStore.

(** ** The database configuration *)

Module Config.

(** [s.startswith(prefix)] *)
Fixpoint startswith (s prefix : str) : bool :=
  match prefix, s with
  | [], _ => true
  | _ :: _, [] => false
  | p :: prefix', c :: s' => (c =? p)%N && startswith s' prefix'
  end.

(** [s.replace(old, new, 1)]: the leftmost occurrence of [old] replaced. *)
Fixpoint replace_first (old new s : str) : str :=
  if startswith s old then new ++ skipn (length old) s
  else
    match s with
    | [] => []
    | c :: s' => c :: replace_first old new s'
    end.

(** [os.environ] *)
Definition environ : Type := str -> option str.

(** The value given to [app.config['SQLALCHEMY_DATABASE_URI']]. *)
Definition sqlalchemy_database_uri (env : environ) : str :=
  match env (lit "DATABASE_URL") with
  | Some database_url =>
      if negb (length database_url =? 0)%nat then
        if startswith database_url (lit "postgres://")
        then replace_first (lit "postgres://") (lit "postgresql://")
                           database_url
        else database_url
      else lit "sqlite:///notes.db"
  | None => lit "sqlite:///notes.db"
  end.

End Config.

(* ================================================================== *)
(** * Part II: the codecs *)
(* ================================================================== *)

Unset Implicit Arguments.

#[local] Arguments N.add : simpl never.
#[local] Arguments N.mul : simpl never.
#[local] Arguments N.sub : simpl never.
#[local] Arguments N.div : simpl never.
#[local] Arguments N.modulo : simpl never.
#[local] Arguments N.ltb : simpl never.
#[local] Arguments N.leb : simpl never.
#[local] Arguments N.eqb : simpl never.

Ltac Zify.zify_post_hook ::= Z.to_euclidean_division_equations.

(** Decides the comparisons of a goal from the hypotheses. *)
Ltac nbool :=
  repeat match goal with
  | |- context [(?a <? ?b)%N] =>
      first [ replace (a <? b)%N with true by (symmetry; apply N.ltb_lt; lia)
            | replace (a <? b)%N with false by (symmetry; apply N.ltb_ge; lia) ]
  | |- context [(?a <=? ?b)%N] =>
      first [ replace (a <=? b)%N with true by (symmetry; apply N.leb_le; lia)
            | replace (a <=? b)%N with false by (symmetry; apply N.leb_gt; lia) ]
  end.

Module BytesFacts.
Local Open Scope N_scope.

Lemma Ok_inj (A : Type) (a b : A) : Ok a = Ok b -> a = b.
Proof. intros H. now injection H. Qed.

Lemma b2n_lt b : b2n b < 256.
Proof. unfold b2n. pose proof (Byte.to_N_bounded b). lia. Qed.

Lemma n2b_b2n b : n2b (b2n b) = b.
Proof.
  unfold n2b. rewrite N.mod_small by apply b2n_lt.
  unfold b2n. now rewrite Byte.of_to_N.
Qed.

Lemma b2n_n2b n : n < 256 -> b2n (n2b n) = n.
Proof.
  intros H. unfold n2b, b2n. rewrite N.mod_small by lia.
  destruct (Byte.of_N n) eqn:E.
  - now apply Byte.to_of_N.
  - apply Byte.of_N_None_iff in E. lia.
Qed.

Lemma map_n2b_b2n (l : bytes) : map n2b (map b2n l) = l.
Proof.
  induction l as [|b l IH]; cbn [map]; [reflexivity|].
  now rewrite n2b_b2n, IH.
Qed.

Lemma byte_eqb_refl (b : byte) : Byte.eqb b b = true.
Proof. now apply Byte.byte_dec_lb. Qed.

Lemma byte_eqb_neq (a b : byte) : a <> b -> Byte.eqb a b = false.
Proof.
  intros H. destruct (Byte.eqb a b) eqn:E; [|reflexivity].
  now apply Byte.byte_dec_bl in E.
Qed.

Lemma str_eqb_eq (a b : str) : str_eqb a b = true <-> a = b.
Proof.
  revert b. induction a as [|x a IH]; intros [|y b]; cbn [str_eqb];
    try (split; (discriminate || reflexivity)).
  rewrite andb_true_iff, N.eqb_eq, IH. split.
  - now intros [-> ->].
  - now intros [= -> ->].
Qed.

Lemma str_eqb_refl (a : str) : str_eqb a a = true.
Proof. now apply str_eqb_eq. Qed.

(** A property checked on the numbers below [k] holds of each of them. *)
Lemma forall_below (p : N -> bool) (k : nat) :
  forallb p (map N.of_nat (seq 0 k)) = true ->
  forall n, n < N.of_nat k -> p n = true.
Proof.
  intros H n Hn. rewrite forallb_forall in H. apply H.
  apply in_map_iff. exists (N.to_nat n). split; [lia|].
  apply in_seq. lia.
Qed.

(** Lists taken three elements at a time. *)
Lemma list_ind3 (A : Type) (Q : list A -> Prop) :
  Q [] -> (forall a, Q [a]) -> (forall a b, Q [a; b]) ->
  (forall a b c l, Q l -> Q (a :: b :: c :: l)) ->
  forall l, Q l.
Proof.
  intros H0 H1 H2 H3.
  fix IH 1. intros [|a [|b [|c l]]].
  - exact H0.
  - apply H1.
  - apply H2.
  - apply H3, IH.
Qed.

End BytesFacts.

Module Utf8Facts.
Import Utf8 BytesFacts.
Local Open Scope N_scope.

Lemma encode_char_scalar c :
  is_scalar c = true -> exists bs, encode_char c = Ok bs /\ bs <> [].
Proof.
  unfold is_scalar, encode_char. rewrite andb_true_iff, negb_true_iff.
  intros [Hc Hs]. rewrite Hs, Hc.
  repeat match goal with
         | |- context [if ?b then _ else _] => destruct b
         end; eexists; (split; [reflexivity|discriminate]).
Qed.

Lemma encode_char_not_scalar c :
  is_scalar c = false -> encode_char c = Raise UnicodeEncodeError.
Proof.
  unfold is_scalar, encode_char, is_surrogate.
  destruct (N.ltb_spec c 0x110000); cbn [andb negb]; intros Hs.
  - apply negb_false_iff, andb_true_iff in Hs. destruct Hs as [H1 H2].
    apply N.leb_le in H1, H2. nbool. reflexivity.
  - nbool. reflexivity.
Qed.

Lemma encode_encodable s : encodable s -> exists bs, encode s = Ok bs.
Proof.
  induction 1 as [|c s Hc _ [bs IH]]; cbn [encode]; [now eexists|].
  destruct (encode_char_scalar c Hc) as (b & -> & _). rewrite IH.
  now eexists.
Qed.

Lemma encode_ok_encodable s bs : encode s = Ok bs -> encodable s.
Proof.
  revert bs. induction s as [|c s IH]; intros bs; [constructor|].
  cbn [encode]. destruct (is_scalar c) eqn:Hc.
  - destruct (encode_char c); [|discriminate]. cbn [bind].
    destruct (encode s) eqn:Es; [|discriminate]. intros _.
    constructor; [exact Hc | eapply IH; reflexivity].
  - now rewrite (encode_char_not_scalar _ Hc).
Qed.

Lemma encode_nonempty s bs : s <> [] -> encode s = Ok bs -> bs <> [].
Proof.
  destruct s as [|c s]; [congruence|]. intros _ H.
  pose proof (encode_ok_encodable _ _ H) as He. inversion He as [|? ? Hc _]; subst.
  cbn [encode] in H. destruct (encode_char_scalar c Hc) as (b & Eb & Hb).
  rewrite Eb in H. cbn [bind] in H.
  destruct (encode s); [|discriminate]. injection H as <-.
  destruct b; [congruence | discriminate].
Qed.

(** Decoding reads back one encoded code point and goes on with what
    follows it. *)
Lemma decode_encode_char c bs rest :
  encode_char c = Ok bs -> decode (bs ++ rest) = fmap (cons c) (decode rest).
Proof.
  unfold encode_char.
  destruct (N.ltb_spec c 0x80).
  { intros [= <-]. cbn [app decode]. rewrite b2n_n2b by lia. nbool.
    reflexivity. }
  destruct (N.ltb_spec c 0x800).
  { intros [= <-]. cbn [app decode]. unfold is_cont, payload.
    rewrite !b2n_n2b by lia. nbool. cbn [andb]. f_equal. f_equal. lia. }
  destruct (N.ltb_spec c 0x10000).
  { unfold is_surrogate at 1.
    destruct (N.leb_spec 0xD800 c); destruct (N.leb_spec c 0xDFFF);
      cbn [andb]; try discriminate;
      intros [= <-]; cbn [app decode]; unfold is_cont, payload, is_surrogate;
      rewrite !b2n_n2b by lia; nbool; cbn [andb negb]; f_equal; f_equal;
      lia. }
  destruct (N.ltb_spec c 0x110000); [|discriminate].
  intros [= <-]. cbn [app decode]. unfold is_cont, payload.
  rewrite !b2n_n2b by lia. nbool. cbn [andb]. f_equal. f_equal. lia.
Qed.

(** [s.encode('utf-8').decode('utf-8') == s] whenever the encoding exists. *)
Lemma decode_encode s bs : encode s = Ok bs -> decode bs = Ok s.
Proof.
  revert bs. induction s as [|c s IH]; intros bs; cbn [encode].
  - now intros [= <-].
  - destruct (encode_char c) as [b|] eqn:Eb; [|discriminate]. cbn [bind].
    destruct (encode s) as [r|] eqn:Er; [|discriminate]. cbn [bind].
    intros [= <-]. rewrite (decode_encode_char c b r Eb).
    now rewrite (IH _ eq_refl).
Qed.

(** ASCII bytes decode to the code points of the same values. *)
Lemma decode_ascii bs : ascii_bytes bs -> decode bs = Ok (map b2n bs).
Proof.
  induction 1 as [|b bs Hb _ IH]; [reflexivity|].
  cbn [decode map]. nbool. now rewrite IH.
Qed.

(** And such a text encodes to the same bytes again. *)
Lemma encode_ascii bs : ascii_bytes bs -> encode (map b2n bs) = Ok bs.
Proof.
  induction 1 as [|b bs Hb _ IH]; [reflexivity|].
  cbn [encode map]. unfold encode_char. nbool. cbn [bind].
  rewrite IH. cbn [bind app]. now rewrite n2b_b2n.
Qed.

End Utf8Facts.

Module Base64Facts.
Import Utf8 Base64 BytesFacts Utf8Facts.
Local Open Scope N_scope.

Lemma table_entries n : n < 64 -> entry_ok n = true.
Proof. apply (forall_below entry_ok 64). vm_compute. reflexivity. Qed.

Lemma a2b_b2a n : n < 64 -> a2b (b2a n) = Some n.
Proof.
  intros H. pose proof (table_entries n H) as T. unfold entry_ok in T.
  rewrite !andb_true_iff in T. destruct T as [[[[T _] _] _] _].
  destruct (a2b (b2a n)); [|discriminate]. apply N.eqb_eq in T. now subst.
Qed.

Lemma b2a_not_pad n : n < 64 -> Byte.eqb (b2a n) PAD = false.
Proof.
  intros H. pose proof (table_entries n H) as T. unfold entry_ok in T.
  rewrite !andb_true_iff in T. destruct T as [[[[_ T] _] _] _].
  now apply negb_true_iff in T.
Qed.

Lemma b2a_ascii n : n < 64 -> b2n (b2a n) < 128.
Proof.
  intros H. pose proof (table_entries n H) as T. unfold entry_ok in T.
  rewrite !andb_true_iff in T. destruct T as [[[[_ _] T] _] _].
  now apply N.ltb_lt in T.
Qed.

Lemma b2a_translation n :
  n < 64 ->
  urlsafe_decode_translation (urlsafe_encode_translation (b2a n)) = b2a n.
Proof.
  intros H. pose proof (table_entries n H) as T. unfold entry_ok in T.
  rewrite !andb_true_iff in T. destruct T as [[[[_ _] _] T] _].
  now apply Byte.byte_dec_bl in T.
Qed.

Lemma b2a_translated_ascii n :
  n < 64 -> b2n (urlsafe_encode_translation (b2a n)) < 128.
Proof.
  intros H. pose proof (table_entries n H) as T. unfold entry_ok in T.
  rewrite !andb_true_iff in T. destruct T as [_ T].
  now apply N.ltb_lt in T.
Qed.

(** One step of the decoder on a character of the alphabet, by position in
    the quad. *)
Lemma loop_data0 n s l p :
  n < 64 -> a2b_loop (b2a n :: s) 0 l p = a2b_loop s 1 n 0.
Proof.
  intros H. cbn [a2b_loop]. now rewrite (b2a_not_pad n H), (a2b_b2a n H).
Qed.

Lemma loop_data1 n s l p :
  n < 64 ->
  a2b_loop (b2a n :: s) 1 l p
  = fmap (cons (n2b (l * 4 + n / 16))) (a2b_loop s 2 (n mod 16) 0).
Proof.
  intros H. cbn [a2b_loop]. now rewrite (b2a_not_pad n H), (a2b_b2a n H).
Qed.

Lemma loop_data2 n s l p :
  n < 64 ->
  a2b_loop (b2a n :: s) 2 l p
  = fmap (cons (n2b (l * 16 + n / 4))) (a2b_loop s 3 (n mod 4) 0).
Proof.
  intros H. cbn [a2b_loop]. now rewrite (b2a_not_pad n H), (a2b_b2a n H).
Qed.

Lemma loop_data3 n s l p :
  n < 64 ->
  a2b_loop (b2a n :: s) 3 l p
  = fmap (cons (n2b (l * 64 + n))) (a2b_loop s 0 0 0).
Proof.
  intros H. cbn [a2b_loop]. now rewrite (b2a_not_pad n H), (a2b_b2a n H).
Qed.

(** A pad that completes the quad ends the decoding: what follows it is
    not read. *)
Lemma loop_pad3 s l : a2b_loop (PAD :: s) 3 l 0 = Ok [].
Proof. reflexivity. Qed.

Lemma loop_pad2 s l : a2b_loop (PAD :: PAD :: s) 2 l 0 = Ok [].
Proof. reflexivity. Qed.

(** Decoding undoes encoding, whatever follows the encoded text when it
    ends in padding. *)
Lemma n2b_eq n b : n = b2n b -> n2b n = b.
Proof. intros ->. apply n2b_b2n. Qed.

Lemma a2b_loop_b64encode s :
  a2b_loop (b64encode s) 0 0 0 = Ok s.
Proof.
  induction s as [|x|x y|x y z s IH] using list_ind3.
  - reflexivity.
  - cbn [b64encode]. pose proof (b2n_lt x).
    rewrite loop_data0, loop_data1, loop_pad2 by lia.
    cbn [fmap bind]. rewrite (n2b_eq _ x) by lia. reflexivity.
  - cbn [b64encode]. pose proof (b2n_lt x). pose proof (b2n_lt y).
    rewrite loop_data0, loop_data1, loop_data2, loop_pad3 by lia.
    cbn [fmap bind]. rewrite (n2b_eq _ x), (n2b_eq _ y) by lia.
    reflexivity.
  - cbn [b64encode]. pose proof (b2n_lt x). pose proof (b2n_lt y).
    pose proof (b2n_lt z).
    rewrite loop_data0, loop_data1, loop_data2, loop_data3, IH by lia.
    cbn [fmap bind].
    rewrite (n2b_eq _ x), (n2b_eq _ y), (n2b_eq _ z) by lia.
    reflexivity.
Qed.

(** [base64.b64decode(base64.b64encode(s)) == s] *)
Lemma b64decode_b64encode s : b64decode (b64encode s) = Ok s.
Proof. apply a2b_loop_b64encode. Qed.

Lemma b64_char_b2a n : n < 64 -> b64_char (b2a n).
Proof. intros H. right. now exists n. Qed.

Lemma b64encode_chars s : Forall b64_char (b64encode s).
Proof.
  induction s as [|x|x y|x y z s IH] using list_ind3; cbn [b64encode].
  - constructor.
  - pose proof (b2n_lt x).
    repeat (apply Forall_cons || apply Forall_nil);
      first [now left | apply b64_char_b2a; lia].
  - pose proof (b2n_lt x). pose proof (b2n_lt y).
    repeat (apply Forall_cons || apply Forall_nil);
      first [now left | apply b64_char_b2a; lia].
  - pose proof (b2n_lt x). pose proof (b2n_lt y). pose proof (b2n_lt z).
    repeat (apply Forall_cons; [apply b64_char_b2a; lia|]).
    exact IH.
Qed.

Lemma b64_char_ascii c : b64_char c -> b2n c < 128.
Proof. intros [-> | (n & H & ->)]; [vm_compute; reflexivity | now apply b2a_ascii]. Qed.

Lemma b64encode_ascii s : ascii_bytes (b64encode s).
Proof.
  eapply Forall_impl; [|apply b64encode_chars]. apply b64_char_ascii.
Qed.

Lemma b64encode_nonempty s : s <> [] -> b64encode s <> [].
Proof. destruct s as [|x [|y [|z s]]]; [congruence | discriminate ..]. Qed.

Lemma b64encode_length s :
  length (b64encode s) = (4 * Nat.div (length s + 2) 3)%nat.
Proof.
  induction s as [|x|x y|x y z s IH] using list_ind3; try reflexivity.
  cbn [b64encode length]. rewrite IH.
  replace (S (S (S (length s))) + 2)%nat with (length s + 2 + 1 * 3)%nat by lia.
  rewrite Nat.div_add by lia. lia.
Qed.

Lemma translation_cancel c :
  b64_char c ->
  urlsafe_decode_translation (urlsafe_encode_translation c) = c.
Proof. intros [-> | (n & H & ->)]; [reflexivity | now apply b2a_translation]. Qed.

(** [base64.urlsafe_b64decode(base64.urlsafe_b64encode(s)) == s] *)
Lemma urlsafe_b64decode_b64encode s :
  urlsafe_b64decode (urlsafe_b64encode s) = Ok s.
Proof.
  unfold urlsafe_b64decode, urlsafe_b64encode. rewrite map_map.
  rewrite (map_ext_Forall _ (fun c => c) (l := b64encode s)).
  - rewrite map_id. apply b64decode_b64encode.
  - eapply Forall_impl; [|apply b64encode_chars]. apply translation_cancel.
Qed.

Lemma urlsafe_b64encode_length s :
  length (urlsafe_b64encode s) = (4 * Nat.div (length s + 2) 3)%nat.
Proof. unfold urlsafe_b64encode. now rewrite length_map, b64encode_length. Qed.

End Base64Facts.

(* ================================================================== *)
(** * Part III: the token format *)
(* ================================================================== *)

Module FernetFacts.
Import Base64 Fernet BytesFacts Base64Facts.

Lemma firstn_exact (A : Type) n (a b : list A) :
  length a = n -> firstn n (a ++ b) = a.
Proof.
  intros <-. rewrite firstn_app, firstn_all, Nat.sub_diag.
  cbn [firstn]. apply app_nil_r.
Qed.

Lemma skipn_exact (A : Type) n (a b : list A) :
  length a = n -> skipn n (a ++ b) = b.
Proof.
  intros <-. rewrite skipn_app, skipn_all, Nat.sub_diag. reflexivity.
Qed.

Lemma drop_last_app k (a b : bytes) : length b = k -> drop_last k (a ++ b) = a.
Proof.
  intros H. unfold drop_last. apply firstn_exact. rewrite length_app. lia.
Qed.

Lemma take_last_app k (a b : bytes) : length b = k -> take_last k (a ++ b) = b.
Proof.
  intros H. unfold take_last. apply skipn_exact. rewrite length_app. lia.
Qed.

Lemma to_bytes_length k n : length (to_bytes k n) = k.
Proof.
  revert n. induction k as [|k IH]; intros n; cbn [to_bytes]; [reflexivity|].
  rewrite length_app, IH. cbn [length]. lia.
Qed.

Lemma os_urandom_length e n : length (os_urandom e n) = n.
Proof. unfold os_urandom. now rewrite length_map, length_seq. Qed.

(** *** PKCS7 *)

Lemma pkcs7_pad_length m :
  length (pkcs7_pad m) = (16 * (Nat.div (length m) 16 + 1))%nat.
Proof.
  unfold pkcs7_pad. rewrite length_app, repeat_length.
  pose proof (Nat.div_mod_eq (length m) 16).
  pose proof (Nat.mod_upper_bound (length m) 16). lia.
Qed.

Lemma pkcs7_pad_aligned m : Nat.modulo (length (pkcs7_pad m)) 16 = 0.
Proof.
  rewrite pkcs7_pad_length, Nat.mul_comm. apply Nat.Div0.mod_mul.
Qed.

Lemma all_eqb_repeat b n : all_eqb b (repeat b n) = true.
Proof.
  induction n as [|n IH]; [reflexivity|].
  cbn [repeat all_eqb forallb]. rewrite byte_eqb_refl. exact IH.
Qed.

Lemma last_app_repeat (m : bytes) b n d :
  (0 < n)%nat -> last (m ++ repeat b n) d = b.
Proof.
  intros H. destruct n as [|n]; [lia|].
  replace (repeat b (S n)) with (repeat b n ++ [b]).
  - now rewrite app_assoc, last_last.
  - change [b] with (repeat b 1). rewrite <- repeat_app. f_equal. lia.
Qed.

(** The unpadder undoes the padder. *)
Lemma pkcs7_unpad_pad m : pkcs7_unpad (pkcs7_pad m) = Some m.
Proof.
  unfold pkcs7_unpad.
  pose proof (pkcs7_pad_length m) as HL.
  pose proof (pkcs7_pad_aligned m) as HA.
  rewrite HA.
  replace (length (pkcs7_pad m) =? 0)%nat with false
    by (symmetry; apply Nat.eqb_neq; lia).
  cbn [orb negb Nat.eqb].
  unfold pkcs7_pad in *.
  pose proof (Nat.mod_upper_bound (length m) 16 ltac:(lia)) as HB.
  set (n := (16 - Nat.modulo (length m) 16)%nat) in *.
  assert (Hn : (1 <= n <= 16)%nat) by (unfold n; lia).
  rewrite last_app_repeat by lia.
  rewrite b2n_n2b by lia. rewrite Nat2N.id.
  replace (1 <=? n)%nat with true by (symmetry; apply Nat.leb_le; lia).
  replace (n <=? 16)%nat with true by (symmetry; apply Nat.leb_le; lia).
  rewrite take_last_app by apply repeat_length.
  rewrite all_eqb_repeat. cbn [andb].
  now rewrite drop_last_app by apply repeat_length.
Qed.

(** *** Tokens *)

Section Tokens.
Context {P : Primitives} (L : Lawful P).

Lemma encrypt_from_parts_data data t iv :
  encrypt_from_parts data t iv = urlsafe_b64encode (token_data data t iv).
Proof. reflexivity. Qed.

Lemma token_data_length data t iv :
  length iv = 16 ->
  length (token_data data t iv)
  = (57 + 16 * (Nat.div (length data) 16 + 1))%nat.
Proof.
  intros Hiv. unfold token_data.
  rewrite !length_app, (hmac_length L), to_bytes_length.
  rewrite (cbc_length L) by (try apply pkcs7_pad_aligned; exact Hiv).
  rewrite pkcs7_pad_length. cbn [length]. lia.
Qed.

Lemma decrypt_data_token data t iv :
  length iv = 16 -> decrypt_data (token_data data t iv) = Ok data.
Proof.
  intros Hiv. unfold decrypt_data, verify_signature, token_data.
  set (ct := aes_cbc_encrypt iv (pkcs7_pad data)).
  assert (Hct : length ct = length (pkcs7_pad data))
    by (apply (cbc_length L); [exact Hiv | apply pkcs7_pad_aligned]).
  set (bp := ["128"%byte] ++ to_bytes 8 t ++ iv ++ ct).
  rewrite drop_last_app, take_last_app by apply (hmac_length L).
  destruct (list_eq_dec _ _ _) as [_|N]; [|now elim N]. cbn [bind].
  assert (Hs : slice 9 25 (bp ++ hmac_sha256 bp) = iv).
  { unfold slice, bp.
    replace (["128"%byte] ++ to_bytes 8 t ++ iv ++ ct)
      with ((["128"%byte] ++ to_bytes 8 t) ++ iv ++ ct)
      by now rewrite <- !app_assoc.
    rewrite <- !app_assoc.
    rewrite (app_assoc ["128"%byte]).
    rewrite skipn_exact
      by (rewrite length_app, to_bytes_length; reflexivity).
    now apply firstn_exact. }
  rewrite Hs, Hiv. cbn [Nat.eqb negb].
  assert (Hc : drop_last 32 (skipn 25 (bp ++ hmac_sha256 bp)) = ct).
  { unfold bp.
    replace ((["128"%byte] ++ to_bytes 8 t ++ iv ++ ct) ++ hmac_sha256 bp)
      with ((["128"%byte] ++ to_bytes 8 t ++ iv) ++ ct ++ hmac_sha256 bp)
      by now rewrite <- !app_assoc.
    rewrite skipn_exact
      by (rewrite !length_app, to_bytes_length, Hiv; reflexivity).
    apply drop_last_app, (hmac_length L). }
  rewrite Hc, Hct, pkcs7_pad_aligned. cbn [Nat.eqb negb].
  unfold ct. rewrite (cbc_inverse L) by (try apply pkcs7_pad_aligned; exact Hiv).
  now rewrite pkcs7_unpad_pad.
Qed.

Lemma get_unverified_token_data_token data t iv :
  get_unverified_token_data (encrypt_from_parts data t iv)
  = Ok (token_data data t iv).
Proof.
  unfold get_unverified_token_data.
  rewrite encrypt_from_parts_data, urlsafe_b64decode_b64encode.
  assert (H9 : (length (token_data data t iv) <? 9)%nat = false).
  { apply Nat.ltb_ge. unfold token_data.
    rewrite !length_app, to_bytes_length. cbn [length]. lia. }
  revert H9. unfold token_data. cbn [app]. intros ->. reflexivity.
Qed.

(** [Fernet.decrypt(Fernet.encrypt(data)) == data] *)
Lemma decrypt_encrypt e data : decrypt (encrypt e data) = Ok data.
Proof.
  unfold decrypt, encrypt.
  rewrite get_unverified_token_data_token. cbn [bind].
  apply decrypt_data_token, os_urandom_length.
Qed.

Lemma encrypt_nonempty e data : encrypt e data <> [].
Proof.
  unfold encrypt. rewrite encrypt_from_parts_data.
  intros H. apply (f_equal (@length byte)) in H.
  rewrite urlsafe_b64encode_length, token_data_length in H
    by apply os_urandom_length.
  cbn [length] in H.
  pose proof (Nat.div_mod_eq
                (57 + 16 * (Nat.div (length data) 16 + 1) + 2) 3).
  pose proof (Nat.mod_upper_bound
                (57 + 16 * (Nat.div (length data) 16 + 1) + 2) 3).
  lia.
Qed.

(** A token is accepted only with a tag that verifies: whatever
    [decrypt] returns was authenticated. *)
Lemma decrypt_authenticated token m :
  decrypt token = Ok m ->
  exists data,
    urlsafe_b64decode token = Ok data
    /\ hmac_sha256 (drop_last 32 data) = take_last 32 data.
Proof.
  unfold decrypt, get_unverified_token_data.
  destruct (urlsafe_b64decode token) as [data|]; [|discriminate].
  destruct data as [|v data]; [discriminate|].
  destruct (negb (Byte.eqb v "128"%byte)); [discriminate|].
  destruct (length (v :: data) <? 9)%nat; [discriminate|].
  cbn [bind]. unfold decrypt_data, verify_signature.
  destruct (list_eq_dec _ _ _) as [Heq|]; [|discriminate].
  intros _. now exists (v :: data).
Qed.

End Tokens.

(** *** The stand-in primitives *)

Lemma xor_byte_involutive a k : xor_byte (xor_byte a k) k = a.
Proof.
  assert (H : forallb (fun x => forallb (xor_pair_ok x)
                                   (map N.of_nat (seq 0 256)))
                (map N.of_nat (seq 0 256)) = true)
    by (vm_compute; reflexivity).
  pose proof (forall_below _ 256 H (b2n a) (b2n_lt a)) as Ha.
  cbv beta in Ha.
  pose proof (forall_below _ 256 Ha (b2n k) (b2n_lt k)) as Hk.
  unfold xor_pair_ok in Hk. rewrite !n2b_b2n in Hk.
  now apply Byte.byte_dec_bl in Hk.
Qed.

Lemma xor_stream_involutive iv cur m :
  xor_stream iv cur (xor_stream iv cur m) = m.
Proof.
  revert cur. induction m as [|x m IH]; intros cur; [reflexivity|].
  destruct cur as [|k cur]; [destruct iv as [|k cur]|]; cbn [xor_stream];
    rewrite ?xor_byte_involutive, IH; reflexivity.
Qed.

Lemma xor_stream_length iv cur m : length (xor_stream iv cur m) = length m.
Proof.
  revert cur. induction m as [|x m IH]; intros cur; [reflexivity|].
  destruct cur as [|k cur]; [destruct iv as [|k cur]|]; cbn [xor_stream length];
    now rewrite IH.
Qed.

(** The stand-in primitives meet the requirements of the token format. *)
Lemma stand_in_lawful : Lawful stand_in.
Proof.
  constructor; cbn [aes_cbc_encrypt aes_cbc_decrypt hmac_sha256 stand_in].
  - intros iv m _ _. apply xor_stream_length.
  - intros iv m _ _. apply xor_stream_involutive.
  - intros d. unfold sum_tag. now rewrite length_map, length_seq.
Qed.

End FernetFacts.

(* ================================================================== *)
(** * Part IV: the cipher wrapper *)
(* ================================================================== *)

Module WrapperFacts.
Import Utf8 Base64 Fernet App.
Import BytesFacts Utf8Facts Base64Facts FernetFacts.

Section Wrapper.
Context {P : Primitives}.

Lemma encrypt_text_falsy e v : truthy v = false -> encrypt_text e v = Ok [].
Proof. intros H. unfold encrypt_text. now rewrite H. Qed.

Lemma truthy_str s : truthy (JStr s) = true <-> s <> [].
Proof. destruct s; cbn; split; congruence. Qed.

(** The ciphertext of a text that has an encoding. *)
Lemma encrypt_text_str e s raw :
  s <> [] -> Utf8.encode s = Ok raw ->
  encrypt_text e (JStr s)
  = Ok (map b2n (b64encode (Fernet.encrypt e raw))).
Proof.
  intros Hs Hr. unfold encrypt_text.
  rewrite (proj2 (truthy_str s) Hs). cbn [negb method_encode].
  rewrite Hr. cbn [bind]. apply decode_ascii, b64encode_ascii.
Qed.

(** A text without an encoding is refused. *)
Lemma encrypt_text_not_encodable e s :
  s <> [] -> ~ encodable s ->
  encrypt_text e (JStr s) = Raise UnicodeEncodeError.
Proof.
  intros Hs Hn. unfold encrypt_text.
  rewrite (proj2 (truthy_str s) Hs). cbn [negb method_encode].
  destruct (Utf8.encode s) as [raw|x] eqn:Er.
  - elim Hn. exact (encode_ok_encodable s raw Er).
  - clear Hn Hs. cbn [bind]. f_equal. revert x Er.
    induction s as [|c s IH]; intros x; cbn [Utf8.encode]; [discriminate|].
    destruct (is_scalar c) eqn:Hc.
    + destruct (encode_char_scalar c Hc) as (b & -> & _). cbn [bind].
      destruct (Utf8.encode s); cbn [bind]; [discriminate|].
      intros [= <-]. now apply IH.
    + rewrite (encode_char_not_scalar c Hc). cbn [bind]. congruence.
Qed.

(** A request value is stored when it counts as false or is a text with
    an encoding. *)
Lemma encrypt_text_total e v :
  truthy v = false \/ (exists s, v = JStr s /\ encodable s) ->
  exists c, encrypt_text e v = Ok c.
Proof.
  intros [H | (s & -> & H)].
  - exists []. now apply encrypt_text_falsy.
  - destruct s as [|c s].
    + exists []. reflexivity.
    + destruct (encode_encodable _ H) as [raw Hr].
      eexists. apply encrypt_text_str; [discriminate | exact Hr].
Qed.

Lemma encrypt_text_nonempty e s c :
  Lawful P -> s <> [] -> encrypt_text e (JStr s) = Ok c -> c <> [].
Proof.
  intros L Hs H. destruct (Utf8.encode s) as [raw|x] eqn:Er.
  - rewrite (encrypt_text_str e s raw Hs Er) in H. apply Ok_inj in H.
    subst c. intros H. apply map_eq_nil in H.
    apply b64encode_nonempty in H; [exact H|].
    now apply encrypt_nonempty.
  - unfold encrypt_text in H. rewrite (proj2 (truthy_str s) Hs) in H.
    cbn [negb method_encode] in H. rewrite Er in H. discriminate.
Qed.

Lemma decrypt_text_empty w : decrypt_text [] w = (Ok [], w).
Proof. reflexivity. Qed.

Lemma decrypt_text_ok c s w :
  c <> [] -> decrypt_text_try c = Ok s -> decrypt_text c w = (Ok s, w).
Proof.
  intros Hc H. unfold decrypt_text, try_except, lift.
  destruct c; [congruence|]. cbn [length Nat.eqb]. now rewrite H.
Qed.

Lemma decrypt_text_failed c e w :
  c <> [] -> decrypt_text_try c = Raise e ->
  decrypt_text c w
  = (Ok decryption_error,
     {| table := table w; stdout := stdout w ++ [DecryptionErrorLine e] |}).
Proof.
  intros Hc H. unfold decrypt_text, try_except, lift.
  destruct c; [congruence|]. cbn [length Nat.eqb]. now rewrite H.
Qed.

(** The [try] block reads back what [encrypt_text] wrote. *)
Lemma decrypt_text_try_encrypted e s raw :
  Lawful P -> Utf8.encode s = Ok raw ->
  decrypt_text_try (map b2n (b64encode (Fernet.encrypt e raw))) = Ok s.
Proof.
  intros L Hr. unfold decrypt_text_try.
  rewrite encode_ascii by apply b64encode_ascii. cbn [bind].
  rewrite b64decode_b64encode. cbn [bind].
  rewrite (decrypt_encrypt L). cbn [bind].
  now apply decode_encode.
Qed.

(** What [encrypt_text] returns when it returns: nothing for a value that
    counts as false, the encoded token for a text. *)
Lemma encrypt_text_cases e v c :
  encrypt_text e v = Ok c ->
  (truthy v = false /\ c = [])
  \/ (exists s raw, v = JStr s /\ s <> [] /\ Utf8.encode s = Ok raw
                    /\ c = map b2n (b64encode (Fernet.encrypt e raw))).
Proof.
  destruct (truthy v) eqn:Tv.
  - destruct v as [| | |s| |];
      try (unfold encrypt_text; rewrite Tv; intros H; exfalso;
           exact (eq_ind (Raise AttributeError)
                         (fun r => match r with Raise _ => True
                                           | Ok _ => False end)
                         I _ H)).
    apply truthy_str in Tv. destruct (Utf8.encode s) as [raw|x] eqn:Er.
    + rewrite (encrypt_text_str e s raw Tv Er). intros H.
      apply Ok_inj in H. right. now exists s, raw.
    + unfold encrypt_text. rewrite (proj2 (truthy_str s) Tv).
      cbn [negb method_encode]. rewrite Er. discriminate.
  - rewrite (encrypt_text_falsy e v Tv). intros H. apply Ok_inj in H.
    now left.
Qed.

Lemma text_of_falsy v : truthy v = false -> text_of v = [].
Proof.
  destruct v as [| | |s| |]; try reflexivity.
  destruct s; [reflexivity | discriminate].
Qed.

(** Whatever [encrypt_text] stored, [decrypt_text] shows the text of the
    request value again and prints nothing. *)
Lemma decrypt_text_encrypt_text e v c w :
  Lawful P -> encrypt_text e v = Ok c ->
  decrypt_text c w = (Ok (text_of v), w).
Proof.
  intros L H.
  destruct (encrypt_text_cases e v c H)
    as [[Tv ->] | (s & raw & -> & Hs & Er & ->)].
  - now rewrite (text_of_falsy v Tv).
  - cbn [text_of]. apply decrypt_text_ok.
    + exact (encrypt_text_nonempty e s _ L Hs H).
    + now apply decrypt_text_try_encrypted.
Qed.

End Wrapper.

End WrapperFacts.

(* ================================================================== *)
(** * Part V: the model class and the handlers *)
(* ================================================================== *)

Module AppFacts.
Import Utf8 Base64 Fernet App.
Import BytesFacts Utf8Facts Base64Facts FernetFacts WrapperFacts.

Lemma log_nil w : log w [] = w.
Proof. destruct w. unfold log. cbn. now rewrite app_nil_r. Qed.

Lemma log_log w a b : log (log w a) b = log w (a ++ b).
Proof. unfold log. cbn. now rewrite app_assoc. Qed.

Section Fields.
Context {P : Primitives}.

(** [decrypt_text] always returns: the text it shows, after the lines it
    prints. *)
Lemma decrypt_text_run c w :
  decrypt_text c w = (Ok (shown c), log w (printed c)).
Proof.
  unfold shown, printed. destruct c as [|x c].
  - rewrite !decrypt_text_empty. cbn [fst snd stdout initial].
    now rewrite log_nil.
  - assert (Hne : x :: c <> []) by discriminate.
    destruct (decrypt_text_try (x :: c)) as [s|e] eqn:H.
    + rewrite !(decrypt_text_ok _ s _ Hne H).
      cbn [fst snd stdout initial]. now rewrite log_nil.
    + rewrite !(decrypt_text_failed _ e _ Hne H).
      reflexivity.
Qed.

Lemma shown_empty : shown [] = [] /\ printed [] = [].
Proof. split; reflexivity. Qed.

Lemma shown_ok c s :
  c <> [] -> decrypt_text_try c = Ok s -> shown c = s /\ printed c = [].
Proof.
  intros Hc H. unfold shown, printed.
  rewrite (decrypt_text_ok c s initial Hc H). split; reflexivity.
Qed.

Lemma shown_failed c e :
  c <> [] -> decrypt_text_try c = Raise e ->
  shown c = decryption_error /\ printed c = [DecryptionErrorLine e].
Proof.
  intros Hc H. unfold shown, printed.
  rewrite (decrypt_text_failed c e initial Hc H). split; reflexivity.
Qed.

Lemma shown_encrypted e v c :
  Lawful P -> encrypt_text e v = Ok c ->
  shown c = text_of v /\ printed c = [].
Proof.
  intros L H. unfold shown, printed.
  rewrite (decrypt_text_encrypt_text e v c initial L H).
  split; reflexivity.
Qed.

(** [to_dict] always returns, each field on its own. *)
Lemma to_dict_run n w :
  to_dict n w
  = (Ok {| v_id := id n;
           v_title := shown (title_encrypted n);
           v_content := shown (content_encrypted n);
           v_timestamp := strftime (timestamp n) |},
     log w (printed (title_encrypted n) ++ printed (content_encrypted n))).
Proof.
  unfold to_dict, bindM, ret. rewrite !decrypt_text_run.
  now rewrite log_log.
Qed.

Lemma mapM_to_dict_run ns w :
  exists ls, mapM to_dict ns w = (Ok (map view_of ns), log w ls).
Proof.
  revert w. induction ns as [|n ns IH]; intros w.
  - exists []. cbn [mapM ret map]. now rewrite log_nil.
  - cbn [mapM]. unfold bindM at 1. rewrite to_dict_run.
    destruct (IH (log w (printed (title_encrypted n)
                         ++ printed (content_encrypted n))))
      as (ls & Hm).
    unfold bindM at 1. rewrite Hm. unfold ret.
    eexists (_ ++ ls). rewrite log_log. reflexivity.
Qed.

End Fields.

Section Handlers.
Context {P : Primitives} {E : Engine}.

Lemma from_dict_object env fields :
  from_dict env (JObj fields)
  = (t <- encrypt_text (title_entropy env) (title_of fields) ;;
     c <- encrypt_text (content_entropy env) (content_of fields) ;;
     Ok {| new_title_encrypted := t; new_content_encrypted := c |}).
Proof. reflexivity. Qed.

Lemma from_dict_ok env data note :
  from_dict env data = Ok note ->
  exists fields,
    data = JObj fields
    /\ encrypt_text (title_entropy env) (title_of fields)
       = Ok (new_title_encrypted note)
    /\ encrypt_text (content_entropy env) (content_of fields)
       = Ok (new_content_encrypted note).
Proof.
  destruct data as [| | | | |fields];
    try (intros H; exfalso;
         exact (eq_ind (Raise AttributeError)
                       (fun r => match r with Raise _ => True
                                         | Ok _ => False end)
                       I _ H)).
  rewrite from_dict_object.
  destruct (encrypt_text (title_entropy env) (title_of fields)) as [t|]
    eqn:Ht; [|discriminate].
  destruct (encrypt_text (content_entropy env) (content_of fields)) as [c|]
    eqn:Hc; [|discriminate].
  cbn [bind]. intros H. apply Ok_inj in H. subst note.
  exists fields. now rewrite Ht, Hc.
Qed.

(** [create_note] when [from_dict] returns: one row more, and its view. *)
Lemma create_note_run env data note w :
  from_dict env data = Ok note ->
  let row := row_of env (next_rowid (table w))
                    (new_title_encrypted note)
                    (new_content_encrypted note) in
  create_note env data w
  = (Ok {| status := 201; payload := NoteView (view_of row) |},
     {| table := table w ++ [row];
        stdout := stdout w ++ printed (title_encrypted row)
                           ++ printed (content_encrypted row) |}).
Proof.
  intros H row. unfold create_note, bindM, lift, add_and_commit.
  rewrite H. fold row. rewrite to_dict_run. reflexivity.
Qed.

(** [create_note] when [from_dict] raises: nothing is written. *)
Lemma create_note_raise env data e w :
  from_dict env data = Raise e -> create_note env data w = (Raise e, w).
Proof.
  intros H. unfold create_note, bindM, lift. now rewrite H.
Qed.

Lemma get_or_404_found note_id w n :
  find (fun r => (id r =? note_id)%Z) (table w) = Some n ->
  get_or_404 note_id w = (Ok n, w) /\ id n = note_id.
Proof.
  intros H. unfold get_or_404. rewrite H. split; [reflexivity|].
  apply find_some in H. now apply Z.eqb_eq.
Qed.

Lemma get_or_404_missing note_id w :
  find (fun r => (id r =? note_id)%Z) (table w) = None ->
  (note_id < 2 ^ 63)%Z ->
  get_or_404 note_id w = (Raise NotFound, w).
Proof.
  intros H Hb. unfold get_or_404. rewrite H.
  now rewrite (proj2 (Z.ltb_lt _ _) Hb).
Qed.

Lemma get_or_404_overflow note_id w :
  find (fun r => (id r =? note_id)%Z) (table w) = None ->
  (2 ^ 63 <= note_id)%Z ->
  get_or_404 note_id w = (Raise OverflowError, w).
Proof.
  intros H Hb. unfold get_or_404. rewrite H.
  now rewrite (proj2 (Z.ltb_ge _ _) Hb).
Qed.

(** On a key that no row has, [get_or_404] raises and the world stays. *)
Lemma get_or_404_absent note_id w :
  find (fun r => (id r =? note_id)%Z) (table w) = None ->
  exists e, get_or_404 note_id w = (Raise e, w)
            /\ (e = NotFound \/ e = OverflowError).
Proof.
  intros H. unfold get_or_404. rewrite H.
  destruct (note_id <? 2 ^ 63)%Z; eexists; split; try reflexivity; tauto.
Qed.

(** [update_note] on a key in use, when both fields are stored: the row
    of that key is rewritten, and its view returned. *)
Lemma update_note_run env note_id fields w old t c :
  find (fun r => (id r =? note_id)%Z) (table w) = Some old ->
  encrypt_text (title_entropy env) (title_of fields) = Ok t ->
  encrypt_text (content_entropy env) (content_of fields) = Ok c ->
  let row := row_of env note_id t c in
  update_note env note_id (JObj fields) w
  = (Ok {| status := 200; payload := NoteView (view_of row) |},
     {| table := map (fun r => if (id r =? note_id)%Z then row else r)
                     (table w);
        stdout := stdout w ++ printed t ++ printed c |}).
Proof.
  intros Hf Ht Hc row. destruct (get_or_404_found _ _ _ Hf) as [Hg Hid].
  unfold update_note. unfold bindM at 1. rewrite Hg.
  unfold bindM, lift, method_get. fold (title_of fields).
  fold (content_of fields). rewrite Ht, Hc. rewrite Hid. fold (row_of env note_id t c).
  fold row. unfold commit_update. rewrite to_dict_run. reflexivity.
Qed.

(** [update_note] on a key in use, when it raises: nothing is written. *)
Lemma update_note_raise env note_id data w old :
  find (fun r => (id r =? note_id)%Z) (table w) = Some old ->
  (forall t c, from_dict env data
               <> Ok {| new_title_encrypted := t;
                        new_content_encrypted := c |}) ->
  exists e, update_note env note_id data w = (Raise e, w).
Proof.
  intros Hf Hn. destruct (get_or_404_found _ _ _ Hf) as [Hg Hid].
  unfold update_note. unfold bindM at 1. rewrite Hg.
  unfold bindM, lift.
  destruct data as [| | | | |fields]; try (now eexists).
  unfold method_get. fold (title_of fields). fold (content_of fields).
  destruct (encrypt_text (title_entropy env) (title_of fields)) as [t|e1] eqn:Ht;
    [|now eexists].
  destruct (encrypt_text (content_entropy env) (content_of fields)) as [c|e2] eqn:Hc;
    [|now eexists].
  elim (Hn t c). rewrite from_dict_object, Ht, Hc. reflexivity.
Qed.

Lemma update_note_missing env note_id data w :
  find (fun r => (id r =? note_id)%Z) (table w) = None ->
  (note_id < 2 ^ 63)%Z ->
  update_note env note_id data w = (Raise NotFound, w).
Proof.
  intros H Hb. unfold update_note. unfold bindM at 1.
  now rewrite (get_or_404_missing _ _ H Hb).
Qed.

Lemma update_note_overflow env note_id data w :
  find (fun r => (id r =? note_id)%Z) (table w) = None ->
  (2 ^ 63 <= note_id)%Z ->
  update_note env note_id data w = (Raise OverflowError, w).
Proof.
  intros H Hb. unfold update_note. unfold bindM at 1.
  now rewrite (get_or_404_overflow _ _ H Hb).
Qed.

Lemma update_note_absent env note_id data w :
  find (fun r => (id r =? note_id)%Z) (table w) = None ->
  exists e, update_note env note_id data w = (Raise e, w)
            /\ (e = NotFound \/ e = OverflowError).
Proof.
  intros H. destruct (get_or_404_absent _ _ H) as (e & He & Hc).
  exists e. split; [|exact Hc].
  unfold update_note. unfold bindM at 1. now rewrite He.
Qed.

Lemma delete_note_run note_id w old :
  find (fun r => (id r =? note_id)%Z) (table w) = Some old ->
  delete_note note_id w
  = (Ok {| status := 204; payload := Empty |},
     {| table := filter (fun r => negb (id r =? note_id)%Z) (table w);
        stdout := stdout w |}).
Proof.
  intros Hf. destruct (get_or_404_found _ _ _ Hf) as [Hg Hid].
  unfold delete_note, bindM. rewrite Hg. unfold delete_and_commit.
  now rewrite Hid.
Qed.

Lemma delete_note_missing note_id w :
  find (fun r => (id r =? note_id)%Z) (table w) = None ->
  (note_id < 2 ^ 63)%Z ->
  delete_note note_id w = (Raise NotFound, w).
Proof.
  intros H Hb. unfold delete_note. unfold bindM at 1.
  now rewrite (get_or_404_missing _ _ H Hb).
Qed.

Lemma delete_note_overflow note_id w :
  find (fun r => (id r =? note_id)%Z) (table w) = None ->
  (2 ^ 63 <= note_id)%Z ->
  delete_note note_id w = (Raise OverflowError, w).
Proof.
  intros H Hb. unfold delete_note. unfold bindM at 1.
  now rewrite (get_or_404_overflow _ _ H Hb).
Qed.

Lemma delete_note_absent note_id w :
  find (fun r => (id r =? note_id)%Z) (table w) = None ->
  exists e, delete_note note_id w = (Raise e, w)
            /\ (e = NotFound \/ e = OverflowError).
Proof.
  intros H. destruct (get_or_404_absent _ _ H) as (e & He & Hc).
  exists e. split; [|exact Hc].
  unfold delete_note. unfold bindM at 1. now rewrite He.
Qed.

(** [get_notes] always answers 200, with the view of each row that the
    engine returns, in its order. *)
Lemma get_notes_run w :
  exists ls,
    get_notes w
    = (Ok {| status := 200;
             payload := NoteList
                          (map view_of (order_by_timestamp_desc (table w))) |},
       log w ls).
Proof.
  destruct (mapM_to_dict_run (order_by_timestamp_desc (table w)) w)
    as (ls & Hm).
  exists ls. unfold get_notes, bindM, ret. now rewrite Hm.
Qed.

End Handlers.

End AppFacts.

Module TableFacts.
Import App.

Lemma fold_max_ge xs x : (x <= fold_left Z.max xs x)%Z.
Proof.
  revert x. induction xs as [|y xs IH]; intros x; cbn [fold_left]; [lia|].
  specialize (IH (Z.max x y)). lia.
Qed.

Lemma fold_max_in xs x y : In y xs -> (y <= fold_left Z.max xs x)%Z.
Proof.
  revert x. induction xs as [|z xs IH]; intros x; [contradiction|].
  cbn [fold_left]. intros [-> | H].
  - pose proof (fold_max_ge xs (Z.max x y)). lia.
  - now apply IH.
Qed.

(** The key of a new row is above every key in use. *)
Lemma next_rowid_above rows r : In r rows -> (id r < next_rowid rows)%Z.
Proof.
  intros H. unfold next_rowid. apply (in_map id) in H.
  destruct (map id rows) as [|x xs]; [contradiction|].
  destruct H as [<- | H].
  - pose proof (fold_max_ge xs x). lia.
  - pose proof (fold_max_in xs x _ H). lia.
Qed.

Lemma next_rowid_fresh rows :
  find (fun r => (id r =? next_rowid rows)%Z) rows = None.
Proof.
  destruct (find _ rows) as [r|] eqn:H; [|reflexivity].
  apply find_some in H. destruct H as [Hin He].
  apply Z.eqb_eq in He. pose proof (next_rowid_above rows r Hin). lia.
Qed.

Lemma find_after_delete note_id rows :
  find (fun r => (id r =? note_id)%Z)
       (filter (fun r => negb (id r =? note_id)%Z) rows) = None.
Proof.
  induction rows as [|r rows IH]; [reflexivity|].
  cbn [filter]. destruct (id r =? note_id)%Z eqn:He; cbn [negb]; [exact IH|].
  cbn [find]. now rewrite He.
Qed.

(** A key that no row has gets no row when a row of another key is
    appended, when a row is rewritten under its key, or when rows are
    removed. *)
Lemma absent_after_insert k rows row :
  find (fun r => (id r =? k)%Z) rows = None -> id row <> k ->
  find (fun r => (id r =? k)%Z) (rows ++ [row]) = None.
Proof.
  intros H Hn. induction rows as [|a rows IH].
  - cbn [app find]. now rewrite (proj2 (Z.eqb_neq _ _) Hn).
  - cbn [app find] in H |- *. destruct (id a =? k)%Z; [discriminate|].
    now apply IH.
Qed.

Lemma absent_after_update k key row rows :
  id row = key ->
  find (fun r => (id r =? k)%Z) rows = None ->
  find (fun r => (id r =? k)%Z)
       (map (fun x => if (id x =? key)%Z then row else x) rows) = None.
Proof.
  intros Hid. induction rows as [|a rows IH]; [reflexivity|].
  cbn [map find]. destruct (id a =? k)%Z eqn:Ha; [discriminate|].
  intros H. destruct (id a =? key)%Z eqn:Hk.
  - apply Z.eqb_eq in Hk.
    assert (Hr : (id row =? k)%Z = false) by now rewrite Hid, <- Hk.
    rewrite Hr. now apply IH.
  - rewrite Ha. now apply IH.
Qed.

Lemma absent_after_filter k (f : Note -> bool) rows :
  find (fun r => (id r =? k)%Z) rows = None ->
  find (fun r => (id r =? k)%Z) (filter f rows) = None.
Proof.
  induction rows as [|a rows IH]; [reflexivity|].
  cbn [filter find]. destruct (id a =? k)%Z eqn:Ha; [discriminate|].
  intros H. destruct (f a); [|now apply IH].
  cbn [find]. rewrite Ha. now apply IH.
Qed.

(** An UPDATE leaves the rows of the other keys where they are. *)
Lemma update_keeps_others note_id row rows i r :
  nth_error rows i = Some r -> id r <> note_id ->
  nth_error (map (fun x => if (id x =? note_id)%Z then row else x) rows) i
  = Some r.
Proof.
  intros H Hn. rewrite nth_error_map, H. cbn [option_map].
  now rewrite (proj2 (Z.eqb_neq _ _) Hn).
Qed.

End TableFacts.

Module ClockFacts.
Import App.
Local Open Scope N_scope.

Lemma digits_one fuel n : n < 10 -> digits (S fuel) n = [48 + n].
Proof.
  intros H. cbn [digits]. now rewrite (proj2 (N.ltb_lt _ _) H).
Qed.

Lemma digits_more fuel n :
  10 <= n -> digits (S fuel) n = digits fuel (n / 10) ++ [48 + n mod 10].
Proof.
  intros H. cbn [digits]. now rewrite (proj2 (N.ltb_ge _ _) H).
Qed.

(** [%m], [%d], [%H], [%M] and [%S]: two digits. *)
Lemma zero_pad_two n :
  n < 100 -> zero_pad 2 n = [48 + n / 10; 48 + n mod 10].
Proof.
  intros H. unfold zero_pad. destruct (N.lt_ge_cases n 10) as [Hs | Hs].
  - rewrite (digits_one 19 n Hs). cbn [length Nat.sub repeat app].
    now rewrite (N.div_small n 10 Hs), (N.mod_small n 10 Hs).
  - rewrite (digits_more 19 n Hs).
    assert (Hq : n / 10 < 10) by (apply N.Div0.div_lt_upper_bound; lia).
    now rewrite (digits_one 18 _ Hq).
Qed.

(** [%Y] of a year of four digits. *)
Lemma digits_year y :
  1000 <= y <= 9999 ->
  digits 20 y
  = [48 + y / 1000; 48 + y / 100 mod 10; 48 + y / 10 mod 10; 48 + y mod 10].
Proof.
  intros [Hl Hu].
  assert (H1 : y / 10 / 10 = y / 100) by now rewrite N.Div0.div_div.
  assert (H2 : y / 100 / 10 = y / 1000) by now rewrite N.Div0.div_div.
  assert (Q1 : 10 <= y / 10)
    by (apply N.div_le_lower_bound; lia).
  assert (Q2 : 10 <= y / 100)
    by (apply N.div_le_lower_bound; lia).
  assert (Q3 : y / 1000 < 10)
    by (apply N.Div0.div_lt_upper_bound; lia).
  rewrite (digits_more 19 y) by lia.
  rewrite (digits_more 18 (y / 10) Q1), H1.
  rewrite (digits_more 17 (y / 100) Q2), H2.
  now rewrite (digits_one 16 _ Q3).
Qed.

(** The text of a reading of the clock: ['YYYY-MM-DD HH:MM:SS']. *)
Lemma strftime_text t :
  1000 <= year t <= 9999 -> month t < 100 -> day t < 100 ->
  hour t < 100 -> minute t < 100 -> second t < 100 ->
  strftime t
  = [48 + year t / 1000; 48 + year t / 100 mod 10;
     48 + year t / 10 mod 10; 48 + year t mod 10; 45;
     48 + month t / 10; 48 + month t mod 10; 45;
     48 + day t / 10; 48 + day t mod 10; 32;
     48 + hour t / 10; 48 + hour t mod 10; 58;
     48 + minute t / 10; 48 + minute t mod 10; 58;
     48 + second t / 10; 48 + second t mod 10].
Proof.
  intros Hy Hm Hd Hh Hi Hs. unfold strftime.
  rewrite (digits_year _ Hy), !zero_pad_two by assumption.
  reflexivity.
Qed.

End ClockFacts.

Module StoredFacts.
Import Utf8 Base64 Fernet App.
Import BytesFacts Utf8Facts Base64Facts FernetFacts WrapperFacts AppFacts.

Section Stored.
Context {P : Primitives} {E : Engine} (L : Lawful P).

Lemma view_of_stored env key e1 e2 v1 v2 t c :
  encrypt_text e1 v1 = Ok t -> encrypt_text e2 v2 = Ok c ->
  view_of (row_of env key t c)
  = {| v_id := key; v_title := text_of v1; v_content := text_of v2;
       v_timestamp := strftime (utcnow env) |}
  /\ printed t = [] /\ printed c = [].
Proof.
  intros Ht Hc. unfold view_of, row_of.
  cbn [id title_encrypted content_encrypted timestamp].
  destruct (shown_encrypted e1 v1 t L Ht) as [-> ->].
  destruct (shown_encrypted e2 v2 c L Hc) as [-> ->].
  now repeat split.
Qed.

(** [create_note] when both fields are stored. *)
Lemma create_note_stored env fields w t c :
  encrypt_text (title_entropy env) (title_of fields) = Ok t ->
  encrypt_text (content_entropy env) (content_of fields) = Ok c ->
  create_note env (JObj fields) w
  = (Ok {| status := 201;
           payload := NoteView
             {| v_id := next_rowid (table w);
                v_title := text_of (title_of fields);
                v_content := text_of (content_of fields);
                v_timestamp := strftime (utcnow env) |} |},
     {| table := table w ++ [row_of env (next_rowid (table w)) t c];
        stdout := stdout w |}).
Proof.
  intros Ht Hc.
  rewrite (create_note_run env (JObj fields)
             {| new_title_encrypted := t; new_content_encrypted := c |})
    by (rewrite from_dict_object, Ht, Hc; reflexivity).
  cbn [new_title_encrypted new_content_encrypted].
  destruct (view_of_stored env (next_rowid (table w)) _ _ _ _ t c Ht Hc)
    as (Hv & Hp1 & Hp2).
  fold (row_of env (next_rowid (table w)) t c). rewrite Hv.
  cbn [title_encrypted content_encrypted row_of]. rewrite Hp1, Hp2.
  now rewrite !app_nil_r.
Qed.

(** [update_note] on a key in use when both fields are stored. *)
Lemma update_note_stored env note_id fields w old t c :
  find (fun r => (id r =? note_id)%Z) (table w) = Some old ->
  encrypt_text (title_entropy env) (title_of fields) = Ok t ->
  encrypt_text (content_entropy env) (content_of fields) = Ok c ->
  update_note env note_id (JObj fields) w
  = (Ok {| status := 200;
           payload := NoteView
             {| v_id := note_id;
                v_title := text_of (title_of fields);
                v_content := text_of (content_of fields);
                v_timestamp := strftime (utcnow env) |} |},
     {| table := map (fun r => if (id r =? note_id)%Z
                               then row_of env note_id t c else r)
                     (table w);
        stdout := stdout w |}).
Proof.
  intros Hf Ht Hc.
  rewrite (update_note_run env note_id fields w old t c Hf Ht Hc).
  destruct (view_of_stored env note_id _ _ _ _ t c Ht Hc)
    as (Hv & Hp1 & Hp2).
  rewrite Hv, Hp1, Hp2. now rewrite !app_nil_r.
Qed.

End Stored.

Lemma lookup_absent_title fields :
  lookup (lit "title") fields = None ->
  title_of fields = JStr (lit "Untitled").
Proof. intros H. unfold title_of, dict_get. now rewrite H. Qed.

Lemma lookup_absent_content fields :
  lookup (lit "content") fields = None -> content_of fields = JStr [].
Proof. intros H. unfold content_of, dict_get. now rewrite H. Qed.

Lemma lookup_present_title fields v :
  lookup (lit "title") fields = Some v -> title_of fields = v.
Proof. intros H. unfold title_of, dict_get. now rewrite H. Qed.

Lemma lookup_present_content fields v :
  lookup (lit "content") fields = Some v -> content_of fields = v.
Proof. intros H. unfold content_of, dict_get. now rewrite H. Qed.

Lemma encodable_lit s : encodable (lit s).
Proof.
  unfold lit, encodable. apply Forall_forall. intros c H.
  apply in_map_iff in H. destruct H as (b & <- & _).
  pose proof (b2n_lt b). unfold is_scalar, is_surrogate.
  nbool. reflexivity.
Qed.

Lemma encrypt_text_untitled {P : Primitives} (L : Lawful P) e :
  exists t, encrypt_text e (JStr (lit "Untitled")) = Ok t /\ t <> [].
Proof.
  destruct (encrypt_text_total e (JStr (lit "Untitled"))) as [t Ht].
  - right. eexists. split; [reflexivity | apply encodable_lit].
  - exists t. split; [exact Ht|].
    apply (encrypt_text_nonempty e (lit "Untitled") t L); [discriminate|exact Ht].
Qed.

End StoredFacts.

(* ================================================================== *)
(** * Part VI: the order of the listing *)
(* ================================================================== *)

Module OrderFacts.
Import App.

Lemma lex_compare_refl a : lex_compare a a = Eq.
Proof.
  induction a as [|x a IH]; [reflexivity|].
  cbn [lex_compare]. now rewrite N.compare_refl.
Qed.

Lemma lex_compare_antisym a b :
  lex_compare b a = CompOpp (lex_compare a b).
Proof.
  revert b. induction a as [|x a IH]; intros [|y b]; try reflexivity.
  cbn [lex_compare]. rewrite (N.compare_antisym x y).
  destruct (x ?= y)%N; cbn [CompOpp]; [apply IH | reflexivity ..].
Qed.

Lemma lex_compare_eq a b : lex_compare a b = Eq -> a = b.
Proof.
  revert b. induction a as [|x a IH]; intros [|y b]; try discriminate;
    [reflexivity|].
  cbn [lex_compare]. destruct (x ?= y)%N eqn:C; try discriminate.
  apply N.compare_eq in C. intros H. now rewrite C, (IH b H).
Qed.

Lemma lex_compare_trans_le a b c :
  lex_compare a b <> Gt -> lex_compare b c <> Gt -> lex_compare a c <> Gt.
Proof.
  revert b c. induction a as [|x a IH]; intros [|y b] [|z c];
    cbn [lex_compare]; try congruence.
  destruct (N.compare_spec x y) as [-> | Hxy | Hxy]; try congruence.
  - destruct (N.compare_spec y z) as [-> | Hyz | Hyz]; try congruence.
    apply IH.
  - destruct (N.compare_spec y z) as [-> | Hyz | Hyz]; try congruence.
    + intros _ _. now rewrite (proj2 (N.compare_lt_iff x z) Hxy).
    + intros _ _. rewrite (proj2 (N.compare_lt_iff x z)); [congruence | lia].
Qed.

Lemma dt_fields_inj a b : dt_fields a = dt_fields b -> a = b.
Proof. destruct a, b. cbn. now intros [= -> -> -> -> -> -> ->]. Qed.

Lemma dt_leb_refl a : dt_leb a a = true.
Proof. unfold dt_leb, dt_compare. now rewrite lex_compare_refl. Qed.

Lemma dt_leb_trans a b c :
  dt_leb a b = true -> dt_leb b c = true -> dt_leb a c = true.
Proof.
  unfold dt_leb, dt_compare. intros H1 H2.
  pose proof (lex_compare_trans_le (dt_fields a) (dt_fields b) (dt_fields c)).
  destruct (lex_compare (dt_fields a) (dt_fields b));
    destruct (lex_compare (dt_fields b) (dt_fields c));
    destruct (lex_compare (dt_fields a) (dt_fields c));
    try reflexivity; try discriminate; exfalso; apply H; congruence.
Qed.

Lemma dt_leb_antisym a b : dt_leb a b = true -> dt_leb b a = true -> a = b.
Proof.
  unfold dt_leb, dt_compare. rewrite (lex_compare_antisym (dt_fields a)).
  destruct (lex_compare (dt_fields a) (dt_fields b)) eqn:C;
    cbn [CompOpp]; try discriminate.
  intros _ _. now apply dt_fields_inj, lex_compare_eq.
Qed.

Lemma dt_ltb_leb a b : dt_ltb a b = true -> dt_leb a b = true.
Proof. unfold dt_ltb, dt_leb. now destruct (dt_compare a b). Qed.

Lemma dt_ltb_false a b : dt_ltb a b = false -> dt_leb b a = true.
Proof.
  unfold dt_ltb, dt_leb, dt_compare.
  rewrite (lex_compare_antisym (dt_fields a)).
  now destruct (lex_compare (dt_fields a) (dt_fields b)).
Qed.

Lemma dt_leb_false a b : dt_leb a b = false -> dt_leb b a = true.
Proof.
  unfold dt_leb, dt_compare.
  rewrite (lex_compare_antisym (dt_fields a)).
  now destruct (lex_compare (dt_fields a) (dt_fields b)).
Qed.

Lemma dt_ltb_irrefl a : dt_ltb a a = false.
Proof. unfold dt_ltb, dt_compare. now rewrite lex_compare_refl. Qed.

Lemma newer_first_trans a b c :
  newer_first a b -> newer_first b c -> newer_first a c.
Proof. unfold newer_first. intros H1 H2. exact (dt_leb_trans _ _ _ H2 H1). Qed.

(** *** Insertion sort *)

Section Insertion.
Variable before : Note -> Note -> bool.
Hypothesis before_true : forall x y, before x y = true -> newer_first x y.
Hypothesis before_false : forall x y, before x y = false -> newer_first y x.

Lemma insert_by_perm x l : Permutation (x :: l) (insert_by before x l).
Proof.
  induction l as [|y l IH]; cbn [insert_by]; [apply Permutation_refl|].
  destruct (before x y); [apply Permutation_refl|].
  eapply perm_trans; [apply perm_swap|]. now apply perm_skip.
Qed.

Lemma sort_by_perm rows : Permutation rows (sort_by before rows).
Proof.
  induction rows as [|x rows IH]; [apply perm_nil|].
  cbn [sort_by fold_right]. eapply perm_trans; [|apply insert_by_perm].
  now apply perm_skip.
Qed.

Lemma insert_by_sorted x l :
  StronglySorted newer_first l ->
  StronglySorted newer_first (insert_by before x l).
Proof.
  induction 1 as [|y l Hs IH Hy]; cbn [insert_by].
  - repeat constructor.
  - destruct (before x y) eqn:B.
    + pose proof (before_true _ _ B) as Hxy.
      constructor; [now constructor|]. constructor; [exact Hxy|].
      eapply Forall_impl; [|exact Hy]. intros z Hz.
      exact (newer_first_trans _ _ _ Hxy Hz).
    + constructor; [exact IH|].
      assert (Hall : Forall (newer_first y) (x :: l))
        by (constructor; [exact (before_false _ _ B) | exact Hy]).
      eapply Permutation_Forall; [apply insert_by_perm | exact Hall].
Qed.

Lemma sort_by_sorted rows : StronglySorted newer_first (sort_by before rows).
Proof.
  induction rows as [|x rows IH]; [constructor|].
  cbn [sort_by fold_right]. now apply insert_by_sorted.
Qed.

End Insertion.

(** The sorter does what SQL asks of an ORDER BY. *)
Lemma stable_engine_order_by : SqlOrderBy stable_engine.
Proof.
  intros rows. cbn [order_by_timestamp_desc stable_engine]. split.
  - apply sort_by_perm.
  - apply sort_by_sorted.
    + intros x y H. exact H.
    + intros x y H. now apply dt_leb_false.
Qed.

(** *** Rows of equal timestamps keep the order of the table *)

Lemma stamped_iff t n : stamped t n = true <-> timestamp n = t.
Proof.
  unfold stamped, dt_compare. split.
  - destruct (lex_compare (dt_fields (timestamp n)) (dt_fields t)) eqn:C;
      try discriminate.
    intros _. now apply dt_fields_inj, lex_compare_eq.
  - intros ->. now rewrite lex_compare_refl.
Qed.

(** A row that is inserted passes no row of its own timestamp. *)
Lemma filter_stamped_insert t x l :
  filter (stamped t)
         (insert_by (fun a b => dt_leb (timestamp b) (timestamp a)) x l)
  = filter (stamped t) (x :: l).
Proof.
  induction l as [|y l IH]; [reflexivity|].
  cbn [insert_by].
  destruct (dt_leb (timestamp y) (timestamp x)) eqn:B; [reflexivity|].
  cbn [filter] in IH |- *. rewrite IH.
  destruct (stamped t x) eqn:Sx; [|reflexivity].
  destruct (stamped t y) eqn:Sy; [|reflexivity].
  apply stamped_iff in Sx, Sy. rewrite Sx, Sy, dt_leb_refl in B.
  discriminate.
Qed.

Lemma stable_engine_stable t rows :
  filter (stamped t) (@order_by_timestamp_desc stable_engine rows)
  = filter (stamped t) rows.
Proof.
  cbn [order_by_timestamp_desc stable_engine].
  induction rows as [|x rows IH]; [reflexivity|].
  cbn [sort_by fold_right]. rewrite filter_stamped_insert.
  cbn [filter]. fold (sort_by (fun a b => dt_leb (timestamp b) (timestamp a)) rows).
  now rewrite IH.
Qed.

(** *** A sorted listing of rows with different timestamps is unique *)

Lemma sorted_head_first a l x :
  StronglySorted newer_first (a :: l) -> In x (a :: l) -> newer_first a x.
Proof.
  intros H [<- | Hin].
  - apply dt_leb_refl.
  - apply StronglySorted_inv in H. destruct H as [_ H].
    rewrite Forall_forall in H. now apply H.
Qed.

Lemma sorted_perm_unique l1 l2 :
  Permutation l1 l2 ->
  StronglySorted newer_first l1 -> StronglySorted newer_first l2 ->
  (forall a b, In a l1 -> In b l1 -> timestamp a = timestamp b -> a = b) ->
  l1 = l2.
Proof.
  revert l2. induction l1 as [|a l1 IH]; intros l2 Hp H1 H2 Hd.
  - now apply Permutation_nil in Hp.
  - destruct l2 as [|b l2].
    + apply Permutation_sym, Permutation_nil in Hp. discriminate.
    + assert (Hab : a = b).
      { assert (Ha : In a (b :: l2))
          by (eapply Permutation_in; [exact Hp | now left]).
        assert (Hb : In b (a :: l1))
          by (eapply Permutation_in;
              [apply Permutation_sym; exact Hp | now left]).
        apply Hd; [now left | exact Hb |].
        apply dt_leb_antisym.
        - exact (sorted_head_first b l2 a H2 Ha).
        - exact (sorted_head_first a l1 b H1 Hb). }
      subst b. f_equal. apply IH.
      * now apply Permutation_cons_inv in Hp.
      * now apply StronglySorted_inv in H1.
      * now apply StronglySorted_inv in H2.
      * intros x y Hx Hy. apply Hd; now right.
Qed.

Lemma distinct_timestamps rows a b :
  NoDup (map timestamp rows) -> In a rows -> In b rows ->
  timestamp a = timestamp b -> a = b.
Proof.
  induction rows as [|r rows IH]; [contradiction|].
  cbn [map]. intros Hn. apply NoDup_cons_iff in Hn. destruct Hn as [Hr Hn].
  intros [<- | Ha] [<- | Hb] He; try reflexivity.
  - elim Hr. rewrite He. now apply in_map.
  - elim Hr. rewrite <- He. now apply in_map.
  - now apply IH.
Qed.

(** With timestamps that all differ, every engine returns the same listing. *)
Lemma order_by_unique (E : Engine) rows :
  SqlOrderBy E -> NoDup (map timestamp rows) ->
  order_by_timestamp_desc rows = @order_by_timestamp_desc stable_engine rows.
Proof.
  intros S Hn. destruct (S rows) as [Hp Hs].
  destruct (stable_engine_order_by rows) as [Hp' Hs'].
  apply sorted_perm_unique; [| exact Hs | exact Hs' |].
  - eapply perm_trans; [apply Permutation_sym; exact Hp | exact Hp'].
  - intros a b Ha Hb. apply (distinct_timestamps rows); [exact Hn | |].
    + eapply Permutation_in; [apply Permutation_sym; exact Hp | exact Ha].
    + eapply Permutation_in; [apply Permutation_sym; exact Hp | exact Hb].
Qed.

End OrderFacts.

(* ================================================================== *)
(** * Part VII: what the requests leave in the table *)
(* ================================================================== *)

Module InvariantFacts.
Import Utf8 Base64 Fernet App.
Import BytesFacts Utf8Facts Base64Facts FernetFacts WrapperFacts AppFacts.
Import TableFacts StoredFacts.

Section Steps.
Context {P : Primitives} {E : Engine} (L : Lawful P).

Lemma encrypt_text_well_stored e v c :
  encrypt_text e v = Ok c -> well_stored c.
Proof.
  intros H. destruct (encrypt_text_cases e v c H)
    as [[_ ->] | (s & raw & -> & Hs & Er & ->)].
  - now left.
  - right. exists s. split; [exact Hs|].
    now apply decrypt_text_try_encrypted.
Qed.

(** The stored text is empty exactly for the values that count as false. *)
Lemma encrypt_text_empty_iff e v c :
  encrypt_text e v = Ok c -> (c = [] <-> truthy v = false).
Proof.
  intros H. destruct (encrypt_text_cases e v c H)
    as [[Tv ->] | (s & raw & -> & Hs & Er & ->)].
  - now split.
  - split.
    + intros Hc. exfalso.
      exact (encrypt_text_nonempty e s _ L Hs H Hc).
    + intros Tv. apply truthy_str in Hs. congruence.
Qed.

Lemma serve_world h w : snd (serve h w) = snd (h w).
Proof.
  unfold serve. destruct (h w) as [[r|e] w']; [reflexivity|].
  now destruct e.
Qed.

Lemma serve_raise h w e :
  h w = (Raise e, w) ->
  serve h w = ({| status := if match e with NotFound => true | _ => false end
                            then 404%N else 500%N;
                  payload := ErrorPage |}, w).
Proof. intros H. unfold serve. rewrite H. now destruct e. Qed.

(** What a request does to the table: nothing, one row more, the row of a
    key rewritten, or the rows of a key removed; a row that is written holds
    what [encrypt_text] returned. *)
Lemma step_table r w :
  table (step w r) = table w
  \/ (exists env e1 v1 e2 v2 key t c,
        encrypt_text e1 v1 = Ok t /\ encrypt_text e2 v2 = Ok c
        /\ (table (step w r) = table w ++ [row_of env key t c]
            \/ table (step w r)
               = map (fun x => if (id x =? key)%Z then row_of env key t c
                               else x) (table w)))
  \/ (exists key,
        table (step w r) = filter (fun x => negb (id x =? key)%Z) (table w)).
Proof.
  unfold step. rewrite serve_world.
  destruct r as [|env data|env note_id data|note_id|]; cbn [handler].
  - left. destruct (get_notes_run w) as (ls & ->). reflexivity.
  - destruct (from_dict env data) as [note|e] eqn:Hf.
    + right. left. destruct (from_dict_ok env data note Hf)
        as (fields & -> & Ht & Hc).
      rewrite (create_note_run env (JObj fields) note w Hf). cbn [snd table].
      exists env, (title_entropy env), (title_of fields),
        (content_entropy env), (content_of fields), (next_rowid (table w)),
        (new_title_encrypted note), (new_content_encrypted note).
      split; [exact Ht|]. split; [exact Hc|]. now left.
    + left. now rewrite (create_note_raise env data e w Hf).
  - destruct (find (fun x => (id x =? note_id)%Z) (table w)) as [old|] eqn:Ho.
    + destruct (from_dict env data) as [note|e] eqn:Hf.
      * right. left. destruct (from_dict_ok env data note Hf)
          as (fields & -> & Ht & Hc).
        rewrite (update_note_run env note_id fields w old _ _ Ho Ht Hc).
        cbn [snd table].
        exists env, (title_entropy env), (title_of fields),
          (content_entropy env), (content_of fields), note_id,
          (new_title_encrypted note), (new_content_encrypted note).
        split; [exact Ht|]. split; [exact Hc|]. now right.
      * left. destruct (update_note_raise env note_id data w old Ho)
          as [e' ->]; [|reflexivity].
        intros t c Hn. congruence.
    + left. destruct (update_note_absent env note_id data w Ho)
        as (e & -> & _). reflexivity.
  - destruct (find (fun x => (id x =? note_id)%Z) (table w)) as [old|] eqn:Ho.
    + right. right. exists note_id.
      now rewrite (delete_note_run note_id w old Ho).
    + left. destruct (delete_note_absent note_id w Ho) as (e & -> & _).
      reflexivity.
  - left. reflexivity.
Qed.

(** A key that no row has gets a row from no request but a create request
    for which it is the next key. *)
Lemma step_keeps_absent r w k :
  find (fun x => (id x =? k)%Z) (table w) = None ->
  (forall env data, r = CreateNote env data -> k <> next_rowid (table w)) ->
  find (fun x => (id x =? k)%Z) (table (step w r)) = None.
Proof.
  intros Hk Hn. unfold step. rewrite serve_world.
  destruct r as [|env data|env note_id data|note_id|]; cbn [handler].
  - destruct (get_notes_run w) as (ls & ->). exact Hk.
  - destruct (from_dict env data) as [note|e] eqn:Hf.
    + rewrite (create_note_run env data note w Hf). cbn [snd table].
      apply absent_after_insert; [exact Hk|]. cbn [id].
      intros He. exact (Hn env data eq_refl (eq_sym He)).
    + now rewrite (create_note_raise env data e w Hf).
  - destruct (find (fun x => (id x =? note_id)%Z) (table w)) as [old|] eqn:Ho.
    + destruct (from_dict env data) as [note|e] eqn:Hf.
      * destruct (from_dict_ok env data note Hf) as (fields & -> & Ht & Hc).
        rewrite (update_note_run env note_id fields w old _ _ Ho Ht Hc).
        cbn [snd table]. now apply absent_after_update.
      * destruct (update_note_raise env note_id data w old Ho)
          as [e' ->]; [|exact Hk].
        intros t c Hx. congruence.
    + destruct (update_note_absent env note_id data w Ho) as (e & -> & _).
      exact Hk.
  - destruct (find (fun x => (id x =? note_id)%Z) (table w)) as [old|] eqn:Ho.
    + rewrite (delete_note_run note_id w old Ho). cbn [snd table].
      now apply absent_after_filter.
    + destruct (delete_note_absent note_id w Ho) as (e & -> & _). exact Hk.
  - exact Hk.
Qed.

Lemma step_well_stored r w :
  Forall row_well_stored (table w) ->
  Forall row_well_stored (table (step w r)).
Proof.
  intros H.
  destruct (step_table r w)
    as [-> | [(env & e1 & v1 & e2 & v2 & key & t & c & Ht & Hc & [-> | ->])
             | (key & ->)]].
  - exact H.
  - apply Forall_app. split; [exact H|]. constructor; [|constructor].
    split; [exact (encrypt_text_well_stored e1 v1 t Ht)
           | exact (encrypt_text_well_stored e2 v2 c Hc)].
  - apply Forall_map. eapply Forall_impl; [|exact H].
    intros x Hx. destruct (id x =? key)%Z; [|exact Hx].
    split; [exact (encrypt_text_well_stored e1 v1 t Ht)
           | exact (encrypt_text_well_stored e2 v2 c Hc)].
  - apply Forall_forall. intros x Hx. apply filter_In in Hx.
    rewrite Forall_forall in H. now apply H.
Qed.

Lemma run_well_stored rs w :
  Forall row_well_stored (table w) ->
  Forall row_well_stored (table (run rs w)).
Proof.
  revert w. induction rs as [|r rs IH]; intros w H; [exact H|].
  cbn [run fold_left]. apply IH. now apply step_well_stored.
Qed.

(** Every reachable table holds fields in order. *)
Lemma reachable_well_stored w :
  reachable w -> Forall row_well_stored (table w).
Proof. intros [rs ->]. apply run_well_stored. constructor. Qed.

(** A create request that is answered 201 wrote the row of its fields. *)
Lemma create_note_201 env fields w r w' :
  serve (create_note env (JObj fields)) w = (r, w') -> status r = 201%N ->
  exists t c,
    encrypt_text (title_entropy env) (title_of fields) = Ok t
    /\ encrypt_text (content_entropy env) (content_of fields) = Ok c
    /\ table w' = table w ++ [row_of env (next_rowid (table w)) t c].
Proof.
  destruct (from_dict env (JObj fields)) as [note|e] eqn:Hf.
  - destruct (from_dict_ok env _ note Hf) as (fields' & Hj & Ht & Hc).
    injection Hj as <-.
    unfold serve. rewrite (create_note_run env (JObj fields) note w Hf).
    intros [= <- <-] _. now exists (new_title_encrypted note),
                              (new_content_encrypted note).
  - rewrite (serve_raise _ w e (create_note_raise env _ e w Hf)).
    intros [= <- <-]. cbn [status]. now destruct e.
Qed.

(** An update request that is answered 200 rewrote the row of its key. *)
Lemma update_note_200 env note_id fields w r w' :
  serve (update_note env note_id (JObj fields)) w = (r, w') ->
  status r = 200%N ->
  exists t c,
    encrypt_text (title_entropy env) (title_of fields) = Ok t
    /\ encrypt_text (content_entropy env) (content_of fields) = Ok c
    /\ table w'
       = map (fun x => if (id x =? note_id)%Z then row_of env note_id t c
                       else x) (table w).
Proof.
  destruct (find (fun x => (id x =? note_id)%Z) (table w)) as [old|] eqn:Ho.
  - destruct (from_dict env (JObj fields)) as [note|e] eqn:Hf.
    + destruct (from_dict_ok env _ note Hf) as (fields' & Hj & Ht & Hc).
      injection Hj as <-.
      unfold serve.
      rewrite (update_note_run env note_id fields w old _ _ Ho Ht Hc).
      intros [= <- <-] _. now exists (new_title_encrypted note),
                                (new_content_encrypted note).
    + destruct (update_note_raise env note_id (JObj fields) w old Ho)
        as [e' He']; [intros t c Hn; congruence|].
      rewrite (serve_raise _ w e' He').
      intros [= <- <-]. cbn [status]. now destruct e'.
  - destruct (update_note_absent env note_id (JObj fields) w Ho)
      as (e & He & _).
    rewrite (serve_raise _ w e He).
    intros [= <- <-]. cbn [status]. now destruct e.
Qed.

End Steps.

(** The title that a request supplies counts as false only when the key is
    bound, to a value that counts as false. *)
Lemma title_of_falsy fields :
  truthy (title_of fields) = false
  <-> exists v, lookup (lit "title") fields = Some v /\ truthy v = false.
Proof.
  unfold title_of, dict_get.
  destruct (lookup (lit "title") fields) as [v|].
  - split; [intros H; now exists v | now intros (v' & [= <-] & H)].
  - split; [discriminate | now intros (v' & [=] & _)].
Qed.

End InvariantFacts.

(* ================================================================== *)
(** * Part VIII: bits that the base64 decoder does not read *)
(* ================================================================== *)

Module TamperFacts.
Import Utf8 Base64 Fernet App.
Import BytesFacts Utf8Facts Base64Facts FernetFacts WrapperFacts AppFacts.
Local Open Scope N_scope.


Lemma fmap_fmap (A B C : Type) (f : A -> B) (g : B -> C) (r : result A) :
  fmap g (fmap f r) = fmap (fun a => g (f a)) r.
Proof. now destruct r. Qed.








Section Slack.
Context {P : Primitives} (L : Lawful P).








End Slack.

End TamperFacts.

(* ================================================================== *)
(** * Part IX: the properties of the specification *)
(* ================================================================== *)

Import Utf8 Base64 Fernet App.
Import BytesFacts Utf8Facts Base64Facts FernetFacts WrapperFacts AppFacts.
Import TableFacts StoredFacts InvariantFacts TamperFacts.

(** ** The cipher wrapper *)

(** C1, as amended.  For every non-empty string [s] that has a UTF-8 encoding
    (no surrogate code point), under any entropy, [encrypt_text] returns a
    text [c] and [decrypt_text c] returns [s], printing nothing. *)
Theorem decrypt_encrypt_round_trip
        (P : Primitives) (L : Lawful P) (e : entropy) (s : str) (w : world) :
  s <> [] -> encodable s ->
  exists c, encrypt_text e (JStr s) = Ok c /\ decrypt_text c w = (Ok s, w).
Proof.
  intros Hs He.
  destruct (encrypt_text_total e (JStr s)) as [c Hc].
  - right. now exists s.
  - exists c. split; [exact Hc|].
    exact (decrypt_text_encrypt_text e (JStr s) c w L Hc).
Qed.

Lemma decrypt_encrypt_round_trip_witness :
  lit "Groceries" <> [] /\ encodable (lit "Groceries")
  /\ exists c,
      @encrypt_text stand_in sample_entropy (JStr (lit "Groceries")) = Ok c
      /\ @decrypt_text stand_in c initial = (Ok (lit "Groceries"), initial).
Proof.
  split; [discriminate|]. split; [apply encodable_lit|].
  apply (decrypt_encrypt_round_trip stand_in stand_in_lawful).
  - discriminate.
  - apply encodable_lit.
Defined.

(** C1, the claim as stated fails: the one-character string of the surrogate
    [U+D800] is a non-empty Python string, and [encrypt_text] raises
    [UnicodeEncodeError] on it, so that there is no ciphertext to decrypt. *)
Lemma encrypt_text_rejects_surrogate :
  is_str [0xD800%N] /\ [0xD800%N] <> []
  /\ @encrypt_text stand_in sample_entropy (JStr [0xD800%N])
     = Raise UnicodeEncodeError
  /\ ~ (exists c,
          @encrypt_text stand_in sample_entropy (JStr [0xD800%N]) = Ok c
          /\ @decrypt_text stand_in c initial = (Ok [0xD800%N], initial)).
Proof.
  split; [repeat constructor|]. split; [discriminate|].
  assert (H : @encrypt_text stand_in sample_entropy (JStr [0xD800%N])
              = Raise UnicodeEncodeError) by reflexivity.
  split; [exact H|]. intros (c & Hc & _). rewrite H in Hc. discriminate.
Qed.

(** C2.  [decrypt_text] returns for every stored text and every state: the
    text [shown], after the lines [printed], the table untouched.  When the
    [try] block raises (the text has no UTF-8 encoding, it is not base64, the
    token is refused, the plaintext is not UTF-8), the text shown is
    ['[Decryption Error]'] and one line is printed.  [to_dict] then returns
    for every row, each of the two fields shown on its own, and [get_notes]
    answers 200 with the view of each row of the query. *)
Theorem decrypt_text_fail_soft (P : Primitives) (E : Engine) :
  (forall c w, decrypt_text c w = (Ok (shown c), log w (printed c)))
  /\ (forall c e, c <> [] -> decrypt_text_try c = Raise e ->
        shown c = lit "[Decryption Error]"
        /\ printed c = [DecryptionErrorLine e])
  /\ (forall c s, c <> [] -> decrypt_text_try c = Ok s ->
        shown c = s /\ printed c = [])
  /\ (forall n w,
        to_dict n w
        = (Ok (view_of n),
           log w (printed (title_encrypted n)
                  ++ printed (content_encrypted n))))
  /\ (forall w, exists ls,
        get_notes w
        = (Ok {| status := 200;
                 payload := NoteList
                   (map view_of (order_by_timestamp_desc (table w))) |},
           log w ls)).
Proof.
  split; [exact decrypt_text_run|].
  split; [exact shown_failed|].
  split; [exact shown_ok|].
  split; [exact to_dict_run|].
  exact get_notes_run.
Qed.

Lemma decrypt_text_fail_soft_witness :
  @shown stand_in (lit "not a token") = lit "[Decryption Error]"
  /\ @printed stand_in (lit "not a token") = [DecryptionErrorLine BinasciiError].
Proof.
  apply (proj1 (proj2 (decrypt_text_fail_soft stand_in stable_engine))).
  - discriminate.
  - vm_compute. reflexivity.
Defined.

(** A table whose one row holds a title that is no token and the content
    ['a']: the listing is answered 200, with the error text for the title
    only, and one line is printed. *)
Lemma corrupted_title_listed :
  @get_notes stand_in stable_engine
    {| table := [ {| id := 1; title_encrypted := lit "not a token";
                     content_encrypted := sample_ciphertext;
                     timestamp := sample_time |} ];
       stdout := [] |}
  = (Ok {| status := 200;
           payload := NoteList
             [ {| v_id := 1; v_title := lit "[Decryption Error]";
                  v_content := lit "a";
                  v_timestamp := lit "2024-05-17 09:30:00" |} ] |},
     {| table := [ {| id := 1; title_encrypted := lit "not a token";
                      content_encrypted := sample_ciphertext;
                      timestamp := sample_time |} ];
        stdout := [DecryptionErrorLine BinasciiError] |}).
Proof. vm_compute. reflexivity. Qed.

(** C9.  [encrypt_text] of the empty string is the empty string and
    [decrypt_text] of the empty string is the empty string, whatever the
    primitives and the entropy (none is used) and with nothing printed; a
    row with empty stored fields has empty fields in its view. *)
Theorem empty_text_bypasses_cipher
        (P : Primitives) (e : entropy) (w : world) (n : Note) :
  encrypt_text e (JStr []) = Ok []
  /\ decrypt_text [] w = (Ok [], w)
  /\ shown [] = [] /\ printed [] = []
  /\ to_dict {| id := id n; title_encrypted := [];
                content_encrypted := []; timestamp := timestamp n |} w
     = (Ok {| v_id := id n; v_title := []; v_content := [];
              v_timestamp := strftime (timestamp n) |}, w).
Proof.
  split; [reflexivity|]. split; [apply decrypt_text_empty|].
  split; [apply shown_empty|]. split; [apply shown_empty|].
  rewrite to_dict_run. unfold view_of.
  cbn [id title_encrypted content_encrypted timestamp].
  destruct shown_empty as [-> ->]. now rewrite log_nil.
Qed.

(** ** The note repository *)

(** C5, as amended.  When no row has the key [note_id] and the key is below
    [2 ^ 63], [update_note] and [delete_note] both answer 404 and leave the
    table and the output as they were.  For a key from [2 ^ 63] that no row
    has they answer 500, and also leave the table and the output as they
    were.  Right after [delete_note note_id] no row has that key; and a key
    that no row has is given to a row by no later request but a create
    request for which it is the next key (the largest key in use plus one),
    after which it is the key of the new note. *)
Theorem missing_id_not_found (P : Primitives) (E : Engine) :
  (forall env note_id data w,
      find (fun r => (id r =? note_id)%Z) (table w) = None ->
      (note_id < 2 ^ 63)%Z ->
      serve (update_note env note_id data) w
      = ({| status := 404; payload := ErrorPage |}, w)
      /\ serve (delete_note note_id) w
         = ({| status := 404; payload := ErrorPage |}, w))
  /\ (forall env note_id data w,
        find (fun r => (id r =? note_id)%Z) (table w) = None ->
        (2 ^ 63 <= note_id)%Z ->
        serve (update_note env note_id data) w
        = ({| status := 500; payload := ErrorPage |}, w)
        /\ serve (delete_note note_id) w
           = ({| status := 500; payload := ErrorPage |}, w))
  /\ (forall note_id w,
        find (fun r => (id r =? note_id)%Z)
             (table (step w (DeleteNote note_id))) = None)
  /\ (forall note_id w r,
        find (fun x => (id x =? note_id)%Z) (table w) = None ->
        (forall env data,
            r = CreateNote env data -> note_id <> next_rowid (table w)) ->
        find (fun x => (id x =? note_id)%Z) (table (step w r)) = None).
Proof.
  split; [|split; [|split]].
  - intros env note_id data w H Hb. unfold serve.
    now rewrite (update_note_missing env note_id data w H Hb),
                (delete_note_missing note_id w H Hb).
  - intros env note_id data w H Hb. unfold serve.
    now rewrite (update_note_overflow env note_id data w H Hb),
                (delete_note_overflow note_id w H Hb).
  - intros note_id w. unfold step, serve, handler.
    destruct (find (fun r => (id r =? note_id)%Z) (table w)) as [old|] eqn:H.
    + rewrite (delete_note_run note_id w old H). cbn [snd table].
      apply find_after_delete.
    + destruct (delete_note_absent note_id w H) as (e & -> & _).
      now destruct e.
  - intros note_id w r. apply step_keeps_absent.
Qed.

Lemma missing_id_not_found_witness :
  find (fun r => (id r =? 7)%Z) (table sample_world) = None
  /\ (7 < 2 ^ 63)%Z
  /\ serve (@update_note stand_in sample_env 7 (JObj [])) sample_world
     = ({| status := 404; payload := ErrorPage |}, sample_world)
  /\ serve (delete_note 7) sample_world
     = ({| status := 404; payload := ErrorPage |}, sample_world).
Proof.
  split; [reflexivity|]. split; [reflexivity|].
  apply (proj1 (missing_id_not_found stand_in stable_engine)
               sample_env 7%Z (JObj []) sample_world).
  - reflexivity.
  - reflexivity.
Defined.

(** C5, the claim as stated fails.  The route passes the number [2 ^ 63];
    no row has this key, and both requests answer 500, not 404.  And a key
    whose note was deleted may be in use again: after a note is created
    (key 1) and deleted, the next note gets the key 1, and an update request
    for the key 1 is answered 200 and a delete request 204. *)
Lemma absent_or_deleted_id_not_404 :
  find (fun r => (id r =? 2 ^ 63)%Z) (table sample_world) = None
  /\ serve (@update_note stand_in sample_env (2 ^ 63) groceries) sample_world
     = ({| status := 500; payload := ErrorPage |}, sample_world)
  /\ serve (delete_note (2 ^ 63)) sample_world
     = ({| status := 500; payload := ErrorPage |}, sample_world)
  /\ map id (table (@run stand_in stable_engine
                      [CreateNote (env_at 1) (titled "A")] initial))
     = [1]%Z
  /\ table (@run stand_in stable_engine
              [CreateNote (env_at 1) (titled "A"); DeleteNote 1] initial)
     = []
  /\ map id (table reuse_world) = [1]%Z
  /\ fst (serve (@update_note stand_in (env_at 3) 1 (titled "C")) reuse_world)
     = {| status := 200;
          payload := NoteView
            {| v_id := 1; v_title := lit "C"; v_content := [];
               v_timestamp := lit "2024-05-17 09:30:03" |} |}
  /\ fst (serve (delete_note 1) reuse_world)
     = {| status := 204; payload := Empty |}.
Proof.
  repeat split; vm_compute; reflexivity.
Qed.

(** C6.  [create_note] on an object without the key [title], its content
    being a value that is stored, answers 201 with a view whose title is
    ['Untitled'], whose id is the key given to the new row and whose
    timestamp is that of the row; the stored title is a non-empty ciphertext
    that shows as ['Untitled'].  On an object without the key [content], its
    title being a value that is stored, the view has the empty content and
    the stored content is the empty string.  The key is in use by no other
    row.  The timestamp of the view is the reading of the clock that the row
    holds, as the 19 characters ['YYYY-MM-DD HH:MM:SS'] when the year has
    four digits. *)
Theorem create_note_defaults
        (P : Primitives) (L : Lawful P) (E : Engine)
        (env : request_env) (fields : list (str * json)) (w : world) :
  (lookup (lit "title") fields = None -> storable (content_of fields) ->
   exists t c,
     create_note env (JObj fields) w
     = (Ok {| status := 201;
              payload := NoteView
                {| v_id := next_rowid (table w);
                   v_title := lit "Untitled";
                   v_content := text_of (content_of fields);
                   v_timestamp := strftime (utcnow env) |} |},
        {| table := table w ++ [row_of env (next_rowid (table w)) t c];
           stdout := stdout w |})
     /\ t <> [] /\ shown t = lit "Untitled")
  /\ (lookup (lit "content") fields = None -> storable (title_of fields) ->
      exists t,
        create_note env (JObj fields) w
        = (Ok {| status := 201;
                 payload := NoteView
                   {| v_id := next_rowid (table w);
                      v_title := text_of (title_of fields);
                      v_content := [];
                      v_timestamp := strftime (utcnow env) |} |},
           {| table := table w ++ [row_of env (next_rowid (table w)) t []];
              stdout := stdout w |}))
  /\ find (fun r => (id r =? next_rowid (table w))%Z) (table w) = None
  /\ (forall t c,
        timestamp (row_of env (next_rowid (table w)) t c) = utcnow env)
  /\ ((1000 <= year (utcnow env) <= 9999)%N ->
      (month (utcnow env) < 100)%N -> (day (utcnow env) < 100)%N ->
      (hour (utcnow env) < 100)%N -> (minute (utcnow env) < 100)%N ->
      (second (utcnow env) < 100)%N ->
      strftime (utcnow env)
      = [48 + year (utcnow env) / 1000; 48 + year (utcnow env) / 100 mod 10;
         48 + year (utcnow env) / 10 mod 10; 48 + year (utcnow env) mod 10;
         45;
         48 + month (utcnow env) / 10; 48 + month (utcnow env) mod 10;
         45;
         48 + day (utcnow env) / 10; 48 + day (utcnow env) mod 10;
         32;
         48 + hour (utcnow env) / 10; 48 + hour (utcnow env) mod 10;
         58;
         48 + minute (utcnow env) / 10; 48 + minute (utcnow env) mod 10;
         58;
         48 + second (utcnow env) / 10; 48 + second (utcnow env) mod 10]%N).
Proof.
  split; [|split; [|split; [apply next_rowid_fresh|split]]].
  - intros Ha Hs. pose proof (lookup_absent_title fields Ha) as Ht.
    destruct (encrypt_text_untitled L (title_entropy env)) as (t & Et & Hne).
    destruct (encrypt_text_total (content_entropy env) _ Hs) as [c Ec].
    exists t, c. rewrite <- Ht in Et.
    rewrite (create_note_stored L env fields w t c Et Ec). rewrite Ht.
    split; [reflexivity|]. split; [exact Hne|].
    rewrite Ht in Et. exact (proj1 (shown_encrypted _ _ t L Et)).
  - intros Ha Hs. pose proof (lookup_absent_content fields Ha) as Hc.
    destruct (encrypt_text_total (title_entropy env) _ Hs) as [t Et].
    exists t.
    assert (Ec : encrypt_text (content_entropy env) (content_of fields) = Ok [])
      by now rewrite Hc.
    rewrite (create_note_stored L env fields w t [] Et Ec). now rewrite Hc.
  - reflexivity.
  - apply ClockFacts.strftime_text.
Qed.

Lemma create_note_defaults_witness :
  lookup (lit "title") [] = None /\ storable (content_of [])
  /\ exists t c,
      @create_note stand_in sample_env (JObj []) initial
      = (Ok {| status := 201;
               payload := NoteView
                 {| v_id := 1;
                    v_title := lit "Untitled";
                    v_content := [];
                    v_timestamp := lit "2024-05-17 09:30:00" |} |},
         {| table := [row_of sample_env 1 t c]; stdout := [] |})
      /\ t <> [] /\ @shown stand_in t = lit "Untitled"
      /\ strftime (timestamp (row_of sample_env 1 t c))
         = lit "2024-05-17 09:30:00".
Proof.
  split; [reflexivity|]. split; [now left|].
  destruct (proj1 (create_note_defaults stand_in stand_in_lawful stable_engine
                     sample_env [] initial))
    as (t & c & H1 & H2 & H3).
  - reflexivity.
  - now left.
  - exists t, c. split; [exact H1|]. split; [exact H2|]. split; [exact H3|].
    cbn [row_of timestamp].
    rewrite (proj2 (proj2 (proj2 (proj2
               (create_note_defaults stand_in stand_in_lawful stable_engine
                  sample_env [] initial)))));
      [reflexivity | cbn; lia ..].
Defined.

(** C4.  [update_note] on a key in use, with an object whose title and
    content (or their defaults) are values that are stored, answers 200; the
    row of that key gets the ciphertexts of the title and content of the
    request, or of ['Untitled'] and the empty string for a key that is
    absent, and the timestamp of the clock, whatever it held before; the view
    shows these texts; and every row of another key stays where it is. *)
Theorem update_note_rewrites_both_fields
        (P : Primitives) (L : Lawful P) (E : Engine)
        (env : request_env) (note_id : Z) (fields : list (str * json))
        (w : world) (old : Note) :
  find (fun r => (id r =? note_id)%Z) (table w) = Some old ->
  storable (title_of fields) -> storable (content_of fields) ->
  exists t c w',
    update_note env note_id (JObj fields) w
    = (Ok {| status := 200;
             payload := NoteView
               {| v_id := note_id;
                  v_title := text_of (title_of fields);
                  v_content := text_of (content_of fields);
                  v_timestamp := strftime (utcnow env) |} |}, w')
    /\ w' = {| table := map (fun r => if (id r =? note_id)%Z
                                      then row_of env note_id t c else r)
                            (table w);
               stdout := stdout w |}
    /\ encrypt_text (title_entropy env) (title_of fields) = Ok t
    /\ encrypt_text (content_entropy env) (content_of fields) = Ok c
    /\ shown t = text_of (title_of fields)
    /\ shown c = text_of (content_of fields)
    /\ (lookup (lit "title") fields = None ->
        text_of (title_of fields) = lit "Untitled")
    /\ (lookup (lit "content") fields = None ->
        text_of (content_of fields) = [] /\ c = [])
    /\ (forall i r, nth_error (table w) i = Some r -> id r <> note_id ->
                    nth_error (table w') i = Some r).
Proof.
  intros Hf Hst Hsc.
  destruct (encrypt_text_total (title_entropy env) _ Hst) as [t Et].
  destruct (encrypt_text_total (content_entropy env) _ Hsc) as [c Ec].
  exists t, c. eexists. split.
  { exact (update_note_stored L env note_id fields w old t c Hf Et Ec). }
  split; [reflexivity|]. split; [exact Et|]. split; [exact Ec|].
  split; [exact (proj1 (shown_encrypted _ _ t L Et))|].
  split; [exact (proj1 (shown_encrypted _ _ c L Ec))|].
  split; [|split].
  - intros Ha. now rewrite (lookup_absent_title fields Ha).
  - intros Ha. rewrite (lookup_absent_content fields Ha) in *.
    split; [reflexivity|]. apply Ok_inj. now rewrite <- Ec.
  - intros i r Hi Hn. cbn [table]. now apply update_keeps_others.
Qed.

Lemma update_note_rewrites_both_fields_witness :
  exists t c w',
    @update_note stand_in sample_env 1
                 (JObj [(lit "title", JStr (lit "Groceries v2"))]) sample_world
    = (Ok {| status := 200;
             payload := NoteView
               {| v_id := 1;
                  v_title := lit "Groceries v2";
                  v_content := [];
                  v_timestamp := strftime (utcnow sample_env) |} |}, w')
    /\ w' = {| table := map (fun r => if (id r =? 1)%Z
                                      then row_of sample_env 1 t c else r)
                            (table sample_world);
               stdout := stdout sample_world |}
    /\ c = [].
Proof.
  destruct (update_note_rewrites_both_fields
              stand_in stand_in_lawful stable_engine sample_env 1
              [(lit "title", JStr (lit "Groceries v2"))] sample_world
              (row_of sample_env 1
                 (match @encrypt_text stand_in sample_entropy
                          (JStr (lit "Groceries")) with
                  | Ok t => t | Raise _ => [] end)
                 (match @encrypt_text stand_in sample_entropy
                          (JStr (lit "milk, eggs")) with
                  | Ok t => t | Raise _ => [] end)))
    as (t & c & w' & H1 & H2 & _ & _ & _ & _ & _ & H3 & _).
  - vm_compute. reflexivity.
  - right. eexists. split; [reflexivity | apply encodable_lit].
  - now left.
  - exists t, c, w'. split; [exact H1|]. split; [exact H2|].
    apply H3. reflexivity.
Defined.

(** C10.  When the object of a create or update request binds [title] to
    [null] or to the empty string (its content being a value that is stored),
    the stored title is the empty string and the title of the view is the
    empty string: ['Untitled'] is not substituted.  Likewise for [content]. *)
Theorem null_or_empty_field_stored_empty
        (P : Primitives) (L : Lawful P) (E : Engine)
        (env : request_env) (fields : list (str * json)) (w : world)
        (v : json) :
  v = JNull \/ v = JStr [] ->
  (lookup (lit "title") fields = Some v -> storable (content_of fields) ->
   exists c,
     create_note env (JObj fields) w
     = (Ok {| status := 201;
              payload := NoteView
                {| v_id := next_rowid (table w);
                   v_title := [];
                   v_content := text_of (content_of fields);
                   v_timestamp := strftime (utcnow env) |} |},
        {| table := table w ++ [row_of env (next_rowid (table w)) [] c];
           stdout := stdout w |})
     /\ forall note_id old,
         find (fun r => (id r =? note_id)%Z) (table w) = Some old ->
         update_note env note_id (JObj fields) w
         = (Ok {| status := 200;
                  payload := NoteView
                    {| v_id := note_id;
                       v_title := [];
                       v_content := text_of (content_of fields);
                       v_timestamp := strftime (utcnow env) |} |},
            {| table := map (fun r => if (id r =? note_id)%Z
                                      then row_of env note_id [] c else r)
                            (table w);
               stdout := stdout w |}))
  /\ (lookup (lit "content") fields = Some v -> storable (title_of fields) ->
      exists t,
        create_note env (JObj fields) w
        = (Ok {| status := 201;
                 payload := NoteView
                   {| v_id := next_rowid (table w);
                      v_title := text_of (title_of fields);
                      v_content := [];
                      v_timestamp := strftime (utcnow env) |} |},
           {| table := table w ++ [row_of env (next_rowid (table w)) t []];
              stdout := stdout w |})
        /\ forall note_id old,
            find (fun r => (id r =? note_id)%Z) (table w) = Some old ->
            update_note env note_id (JObj fields) w
            = (Ok {| status := 200;
                     payload := NoteView
                       {| v_id := note_id;
                          v_title := text_of (title_of fields);
                          v_content := [];
                          v_timestamp := strftime (utcnow env) |} |},
               {| table := map (fun r => if (id r =? note_id)%Z
                                         then row_of env note_id t [] else r)
                               (table w);
                  stdout := stdout w |})).
Proof.
  intros Hv.
  assert (Hf : forall e, encrypt_text e v = Ok [])
    by (intros e; destruct Hv as [-> | ->]; reflexivity).
  assert (Ht : text_of v = []) by (destruct Hv as [-> | ->]; reflexivity).
  split.
  - intros Hl Hs. pose proof (lookup_present_title fields v Hl) as Hv'.
    destruct (encrypt_text_total (content_entropy env) _ Hs) as [c Ec].
    assert (Et : encrypt_text (title_entropy env) (title_of fields) = Ok [])
      by (rewrite Hv'; apply Hf).
    exists c. split.
    + rewrite (create_note_stored L env fields w [] c Et Ec).
      now rewrite Hv', Ht.
    + intros note_id old Ho.
      rewrite (update_note_stored L env note_id fields w old [] c Ho Et Ec).
      now rewrite Hv', Ht.
  - intros Hl Hs. pose proof (lookup_present_content fields v Hl) as Hv'.
    destruct (encrypt_text_total (title_entropy env) _ Hs) as [t Et].
    assert (Ec : encrypt_text (content_entropy env) (content_of fields) = Ok [])
      by (rewrite Hv'; apply Hf).
    exists t. split.
    + rewrite (create_note_stored L env fields w t [] Et Ec).
      now rewrite Hv', Ht.
    + intros note_id old Ho.
      rewrite (update_note_stored L env note_id fields w old t [] Ho Et Ec).
      now rewrite Hv', Ht.
Qed.

Lemma null_or_empty_field_stored_empty_witness :
  exists c,
    @create_note stand_in sample_env (JObj [(lit "title", JNull)]) initial
    = (Ok {| status := 201;
             payload := NoteView
               {| v_id := 1;
                  v_title := [];
                  v_content := [];
                  v_timestamp := strftime (utcnow sample_env) |} |},
       {| table := [row_of sample_env 1 [] c]; stdout := [] |}).
Proof.
  destruct (proj1 (null_or_empty_field_stored_empty
                     stand_in stand_in_lawful stable_engine sample_env
                     [(lit "title", JNull)] initial JNull (or_introl eq_refl)))
    as (c & H & _).
  - reflexivity.
  - now left.
  - exists c. exact H.
Defined.

(** C7.  For every table, [get_notes] answers 200 with the views of the
    rows as the ORDER BY of SQLite lists them: every row once, no row before
    one with a later timestamp, and the rows of any one timestamp in the
    order in which the table holds them, which is the order of their
    insertion.  With three rows [a], [b], [c] inserted in this order and of
    strictly rising timestamps the listing is [c], [b], [a]. *)
Theorem get_notes_newest_first (P : Primitives) (w : world) :
  (exists ls,
      @get_notes P stable_engine w
      = (Ok {| status := 200;
               payload := NoteList
                 (map view_of
                      (@order_by_timestamp_desc stable_engine (table w))) |},
         log w ls))
  /\ Permutation (table w) (@order_by_timestamp_desc stable_engine (table w))
  /\ StronglySorted newer_first
                    (@order_by_timestamp_desc stable_engine (table w))
  /\ (forall t,
        filter (stamped t) (@order_by_timestamp_desc stable_engine (table w))
        = filter (stamped t) (table w))
  /\ (forall t n, stamped t n = true <-> timestamp n = t)
  /\ (forall a b c,
        table w = [a; b; c] ->
        dt_ltb (timestamp a) (timestamp b) = true ->
        dt_ltb (timestamp b) (timestamp c) = true ->
        @order_by_timestamp_desc stable_engine (table w) = [c; b; a]).
Proof.
  split; [apply (@get_notes_run P stable_engine)|].
  destruct (OrderFacts.stable_engine_order_by (table w)) as [Hp Hs].
  split; [exact Hp|]. split; [exact Hs|].
  split; [intros t; apply OrderFacts.stable_engine_stable|].
  split; [exact OrderFacts.stamped_iff|].
  intros a b c Ht Hab Hbc. symmetry.
  pose proof (OrderFacts.dt_ltb_leb _ _ Hab) as Lab.
  pose proof (OrderFacts.dt_ltb_leb _ _ Hbc) as Lbc.
  pose proof (OrderFacts.dt_leb_trans _ _ _ Lab Lbc) as Lac.
  assert (Nab : timestamp a <> timestamp b).
  { intros He. rewrite He, OrderFacts.dt_ltb_irrefl in Hab. discriminate. }
  assert (Nbc : timestamp b <> timestamp c).
  { intros He. rewrite He, OrderFacts.dt_ltb_irrefl in Hbc. discriminate. }
  assert (Nac : timestamp a <> timestamp c).
  { intros He. apply Nbc. apply OrderFacts.dt_leb_antisym; [exact Lbc|].
    now rewrite <- He. }
  rewrite Ht in Hp, Hs |- *.
  apply OrderFacts.sorted_perm_unique.
  - eapply perm_trans; [|exact Hp].
    eapply perm_trans; [apply perm_swap|].
    eapply perm_trans; [apply perm_skip, perm_swap|]. apply perm_swap.
  - repeat constructor; assumption.
  - exact Hs.
  - intros x y [<- | [<- | [<- | []]]] [<- | [<- | [<- | []]]] He;
      congruence.
Qed.

Lemma get_notes_newest_first_witness :
  map id (table rising_world) = [1; 2; 3]%Z
  /\ map id (@order_by_timestamp_desc stable_engine (table rising_world))
     = [3; 2; 1]%Z
  /\ map id (table tie_world) = [1; 2]%Z
  /\ map timestamp (table tie_world) = [at_second 1; at_second 1]
  /\ map id (filter (stamped (at_second 1))
                    (@order_by_timestamp_desc stable_engine (table tie_world)))
     = [1; 2]%Z
  /\ fst (@get_notes stand_in stable_engine tie_world)
     = Ok {| status := 200;
             payload := NoteList
               [ {| v_id := 1; v_title := lit "A"; v_content := [];
                    v_timestamp := lit "2024-05-17 09:30:01" |};
                 {| v_id := 2; v_title := lit "B"; v_content := [];
                    v_timestamp := lit "2024-05-17 09:30:01" |} ] |}.
Proof.
  split; [vm_compute; reflexivity|]. split.
  { rewrite (proj2 (proj2 (proj2 (proj2 (proj2
               (get_notes_newest_first stand_in rising_world)))))
               (nth 0 (table rising_world) (row_of sample_env 0 [] []))
               (nth 1 (table rising_world) (row_of sample_env 0 [] []))
               (nth 2 (table rising_world) (row_of sample_env 0 [] [])));
      vm_compute; reflexivity. }
  split; [vm_compute; reflexivity|]. split; [vm_compute; reflexivity|].
  split.
  { rewrite (proj1 (proj2 (proj2 (proj2
               (get_notes_newest_first stand_in tie_world))))).
    vm_compute. reflexivity. }
  vm_compute. reflexivity.
Defined.

(** C8, as amended.  In every reachable table the stored title of every row
    is either the empty string or a ciphertext that reads back as a non-empty
    text.  [encrypt_text] returns the empty string exactly for the values
    that count as false, so the row written by a create request answered 201
    or an update request answered 200 has an empty stored title exactly when
    the request binds [title] to such a value (the empty string, [null]); it
    is not empty when the key is absent or bound to a non-empty string. *)
Theorem stored_title_empty_or_ciphertext
        (P : Primitives) (L : Lawful P) (E : Engine) :
  (forall w, reachable w ->
             Forall (fun n => well_stored (title_encrypted n)) (table w))
  /\ (forall env fields w r w',
        serve (create_note env (JObj fields)) w = (r, w') ->
        status r = 201%N ->
        exists t c,
          table w' = table w ++ [row_of env (next_rowid (table w)) t c]
          /\ (t = [] <-> truthy (title_of fields) = false))
  /\ (forall env note_id fields w r w',
        serve (update_note env note_id (JObj fields)) w = (r, w') ->
        status r = 200%N ->
        exists t c,
          table w'
          = map (fun x => if (id x =? note_id)%Z then row_of env note_id t c
                          else x) (table w)
          /\ (t = [] <-> truthy (title_of fields) = false))
  /\ (forall fields,
        truthy (title_of fields) = false
        <-> exists v, lookup (lit "title") fields = Some v
                      /\ truthy v = false).
Proof.
  split; [|split; [|split]].
  - intros w Hw. eapply Forall_impl; [|exact (reachable_well_stored L w Hw)].
    now intros n [H _].
  - intros env fields w r w' Hs Hr.
    destruct (create_note_201 env fields w r w' Hs Hr) as (t & c & Ht & _ & Hw).
    exists t, c. split; [exact Hw|].
    exact (encrypt_text_empty_iff L _ _ t Ht).
  - intros env note_id fields w r w' Hs Hr.
    destruct (update_note_200 env note_id fields w r w' Hs Hr)
      as (t & c & Ht & _ & Hw).
    exists t, c. split; [exact Hw|].
    exact (encrypt_text_empty_iff L _ _ t Ht).
  - exact title_of_falsy.
Qed.

Lemma stored_title_empty_or_ciphertext_witness :
  @reachable stand_in stable_engine sample_world
  /\ Forall (fun n => @well_stored stand_in (title_encrypted n))
            (table sample_world).
Proof.
  assert (H : @reachable stand_in stable_engine sample_world)
    by (eexists; reflexivity).
  split; [exact H|].
  exact (proj1 (stored_title_empty_or_ciphertext
                  stand_in stand_in_lawful stable_engine) sample_world H).
Defined.

(** C8, the claim as stated fails: the request that creates a note with the
    empty string for title is answered 201 and leaves a row whose stored
    title is the empty string. *)
Lemma empty_title_stored_empty :
  @reachable stand_in stable_engine empty_title_world
  /\ fst (serve (@create_note stand_in sample_env (titled "")) initial)
     = {| status := 201;
          payload := NoteView
            {| v_id := 1; v_title := []; v_content := [];
               v_timestamp := lit "2024-05-17 09:30:00" |} |}
  /\ table empty_title_world = [row_of sample_env 1 [] []]
  /\ ~ Forall (fun n => title_encrypted n <> []) (table empty_title_world).
Proof.
  split; [eexists; reflexivity|].
  split; [vm_compute; reflexivity|].
  assert (H : table empty_title_world = [row_of sample_env 1 [] []])
    by (vm_compute; reflexivity).
  split; [exact H|]. rewrite H. intros F.
  apply Forall_inv in F. now apply F.
Qed.

(** ** Tampering *)




(** A change that [decrypt_text] refuses: in the text stored for ['a'],
    with the first character replaced by ['A'] the token no longer starts
    with the version byte, and the error text is returned. *)
Lemma first_character_tamper_refused :
  nth 0 sample_ciphertext 0%N <> 65%N
  /\ @decrypt_text stand_in (replace_at 0 65 sample_ciphertext) initial
     = (Ok (lit "[Decryption Error]"),
        log initial [DecryptionErrorLine InvalidToken]).
Proof.
  split; [vm_compute; discriminate | vm_compute; reflexivity].
Qed.

(* ================================================================== *)
(** * Part X: further properties of the cipher wrapper *)
(* ================================================================== *)

Module CipherFacts.
Import Utf8 Base64 Fernet App.
Import BytesFacts Utf8Facts Base64Facts FernetFacts WrapperFacts AppFacts.
Import TamperFacts.

Lemma encode_char_length c bs : encode_char c = Ok bs -> (1 <= length bs)%nat.
Proof.
  unfold encode_char.
  repeat match goal with
         | |- context [if ?b then _ else _] => destruct b
         end; try discriminate; intros H; apply Ok_inj in H; subst bs;
    cbn [length]; lia.
Qed.

(** The encoding has at least one byte for each character. *)
Lemma encode_length s raw : Utf8.encode s = Ok raw -> (length s <= length raw)%nat.
Proof.
  revert raw. induction s as [|c s IH]; intros raw; cbn [Utf8.encode].
  - intros H. apply Ok_inj in H. now subst raw.
  - destruct (encode_char c) as [b|] eqn:Eb; [|discriminate]. cbn [bind].
    destruct (Utf8.encode s) as [r|] eqn:Er; [|discriminate]. cbn [bind].
    intros H. apply Ok_inj in H. subst raw. rewrite length_app.
    pose proof (encode_char_length c b Eb). specialize (IH r eq_refl).
    cbn [length]. lia.
Qed.

Lemma app_eq_length_inv (A : Type) (a a' b b' : list A) :
  length a = length a' -> a ++ b = a' ++ b' -> a = a' /\ b = b'.
Proof.
  revert a'. induction a as [|x a IH]; intros [|y a'] Hl H;
    try discriminate Hl.
  - now split.
  - cbn [app] in H. injection H as -> H. injection Hl as Hl.
    destruct (IH a' Hl H) as [-> ->]. now split.
Qed.

Lemma n2b_mod n : b2n (n2b n) = (n mod 256)%N.
Proof.
  unfold n2b. pose proof (N.mod_upper_bound n 256 ltac:(lia)) as Hb.
  destruct (Byte.of_N (n mod 256)) as [b|] eqn:E.
  - now apply Byte.to_of_N.
  - apply Byte.of_N_None_iff in E. lia.
Qed.

(** Two numbers with the same [k] bytes agree modulo [256^k]. *)
Lemma to_bytes_inj k a b :
  to_bytes k a = to_bytes k b -> (a mod 256 ^ N.of_nat k = b mod 256 ^ N.of_nat k)%N.
Proof.
  revert a b. induction k as [|k IH]; intros a b H.
  - cbn. now rewrite !N.mod_1_r.
  - cbn [to_bytes] in H. apply app_inj_tail in H. destruct H as [H1 H2].
    apply IH in H1. apply (f_equal b2n) in H2. rewrite !n2b_mod in H2.
    rewrite Nat2N.inj_succ, N.pow_succ_r'.
    rewrite !N.Div0.mod_mul_r. now rewrite H1, H2.
Qed.

Lemma b64encode_inj a b : b64encode a = b64encode b -> a = b.
Proof.
  intros H. apply Ok_inj.
  now rewrite <- (b64decode_b64encode a), H, b64decode_b64encode.
Qed.

Lemma urlsafe_b64encode_inj a b :
  urlsafe_b64encode a = urlsafe_b64encode b -> a = b.
Proof.
  intros H. apply Ok_inj.
  now rewrite <- (urlsafe_b64decode_b64encode a), H,
    urlsafe_b64decode_b64encode.
Qed.

Lemma map_b2n_inj (a b : bytes) : map b2n a = map b2n b -> a = b.
Proof.
  intros H. now rewrite <- (map_n2b_b2n a), H, map_n2b_b2n.
Qed.

Section Cipher.
Context {P : Primitives}.

(** Two tokens that are equal were made at the same second with the same
    IV. *)
Lemma encrypt_eq_entropy e1 e2 raw1 raw2 :
  Fernet.encrypt e1 raw1 = Fernet.encrypt e2 raw2 ->
  os_urandom e1 16 = os_urandom e2 16
  /\ (time_time e1 mod 2 ^ 64 = time_time e2 mod 2 ^ 64)%N.
Proof.
  unfold Fernet.encrypt, encrypt_from_parts. intros H.
  apply urlsafe_b64encode_inj in H. rewrite <- !app_assoc in H.
  pose proof (to_bytes_length 8 (time_time e1)) as L1.
  pose proof (to_bytes_length 8 (time_time e2)) as L2.
  remember (to_bytes 8 (time_time e1)) as tb1 eqn:E1.
  remember (to_bytes 8 (time_time e2)) as tb2 eqn:E2.
  apply (app_eq_length_inv _ ["128"%byte] ["128"%byte]) in H;
    [|reflexivity].
  destruct H as [_ H].
  apply app_eq_length_inv in H; [|congruence].
  destruct H as [Ht H].
  apply app_eq_length_inv in H; [|now rewrite !os_urandom_length].
  destruct H as [Hiv _]. split; [exact Hiv|].
  apply (to_bytes_inj 8). congruence.
Qed.

(** What [encrypt_text] raises, and on what. *)
Lemma encrypt_text_raise e v x :
  encrypt_text e v = Raise x ->
  (x = AttributeError /\ truthy v = true /\ forall s, v <> JStr s)
  \/ (x = UnicodeEncodeError
      /\ exists s, v = JStr s /\ s <> [] /\ ~ encodable s).
Proof.
  destruct (truthy v) eqn:Tv.
  - destruct v as [| | |s| |];
      try (unfold encrypt_text; rewrite Tv; cbn [negb method_encode bind];
           intros H; left; split; [congruence|]; split; [reflexivity|];
           intros s; discriminate).
    pose proof (proj1 (truthy_str s) Tv) as Hs.
    destruct (Utf8.encode s) as [raw|y] eqn:Er.
    + now rewrite (encrypt_text_str e s raw Hs Er).
    + assert (Hn : ~ encodable s).
      { intros He. destruct (encode_encodable s He) as [raw Hr]. congruence. }
      rewrite (encrypt_text_not_encodable e s Hs Hn). intros [= <-].
      right. split; [reflexivity|]. now exists s.
  - now rewrite (encrypt_text_falsy e v Tv).
Qed.

Lemma encrypt_text_ok_storable e v c : encrypt_text e v = Ok c -> storable v.
Proof.
  intros H. destruct (encrypt_text_cases e v c H)
    as [[Tv _] | (s & raw & -> & _ & Er & _)].
  - now left.
  - right. exists s. split; [reflexivity|].
    exact (encode_ok_encodable s raw Er).
Qed.

End Cipher.

End CipherFacts.

Import CipherFacts.

(** X1.  [encrypt_text] returns a text exactly for the request values that
    count as false and for the strings with a UTF-8 encoding.  It raises
    [AttributeError] on every other value that is no string (a number other
    than zero, [true], a non-empty list or object) and [UnicodeEncodeError]
    on a non-empty string with a surrogate. *)
Theorem encrypt_text_accepts_exactly_storable
        (P : Primitives) (e : entropy) (v : json) :
  ((exists c, encrypt_text e v = Ok c) <-> storable v)
  /\ (forall x, encrypt_text e v = Raise x ->
        (x = AttributeError /\ truthy v = true /\ forall s, v <> JStr s)
        \/ (x = UnicodeEncodeError
            /\ exists s, v = JStr s /\ s <> [] /\ ~ encodable s)).
Proof.
  split; [split|].
  - intros [c H]. exact (encrypt_text_ok_storable e v c H).
  - apply encrypt_text_total.
  - apply encrypt_text_raise.
Qed.

Lemma encrypt_text_accepts_exactly_storable_witness :
  (exists c, @encrypt_text stand_in sample_entropy (JStr (lit "milk")) = Ok c)
  /\ @encrypt_text stand_in sample_entropy (JNum 5) = Raise AttributeError.
Proof.
  split.
  - apply (proj1 (encrypt_text_accepts_exactly_storable
                    stand_in sample_entropy (JStr (lit "milk")))).
    right. eexists. split; [reflexivity | apply encodable_lit].
  - destruct (@encrypt_text stand_in sample_entropy (JNum 5)) as [c|x] eqn:H.
    + discriminate H.
    + destruct (proj2 (encrypt_text_accepts_exactly_storable
                         stand_in sample_entropy (JNum 5)) x H)
        as [[-> _] | [_ (s & Hs & _)]]; [reflexivity | discriminate Hs].
Defined.

(** X2.  The text stored for a non-empty string is made of characters of the
    base64 alphabet and ['='] only, all ASCII, and its length is a multiple
    of four. *)
Theorem stored_text_is_base64
        (P : Primitives) (e : entropy) (s c : str) :
  s <> [] -> encrypt_text e (JStr s) = Ok c ->
  Forall (fun ch => exists b, ch = b2n b /\ b64_char b) c
  /\ Forall (fun ch => (ch < 128)%N) c
  /\ Nat.modulo (length c) 4 = 0%nat.
Proof.
  intros Hs H. destruct (encrypt_text_cases e (JStr s) c H)
    as [[Tv _] | (s' & raw & _ & _ & _ & ->)].
  - apply truthy_str in Hs. congruence.
  - split; [|split].
    + apply Forall_forall. intros ch Hch. apply in_map_iff in Hch.
      destruct Hch as (b & <- & Hb). exists b. split; [reflexivity|].
      pose proof (b64encode_chars (Fernet.encrypt e raw)) as Hall.
      rewrite Forall_forall in Hall. exact (Hall b Hb).
    + apply Forall_forall. intros ch Hch. apply in_map_iff in Hch.
      destruct Hch as (b & <- & Hb).
      pose proof (b64encode_ascii (Fernet.encrypt e raw)) as Hall.
      unfold ascii_bytes in Hall. rewrite Forall_forall in Hall.
      exact (Hall b Hb).
    + rewrite length_map, b64encode_length, Nat.mul_comm.
      apply Nat.Div0.mod_mul.
Qed.

Lemma stored_text_is_base64_witness :
  Forall (fun ch => (ch < 128)%N) sample_ciphertext
  /\ Nat.modulo (length sample_ciphertext) 4 = 0%nat.
Proof.
  apply (stored_text_is_base64 stand_in sample_entropy (lit "a")
                               sample_ciphertext).
  - discriminate.
  - vm_compute. reflexivity.
Defined.

(** X3.  The text stored for a non-empty string is longer than the string:
    the table never holds a title or a content as it was supplied. *)
Theorem stored_text_longer_than_plaintext
        (P : Primitives) (L : Lawful P) (e : entropy) (s c : str) :
  s <> [] -> encrypt_text e (JStr s) = Ok c ->
  (length s < length c)%nat /\ c <> s.
Proof.
  intros Hs H. destruct (encrypt_text_cases e (JStr s) c H)
    as [[Tv _] | (s' & raw & [= <-] & _ & Er & ->)].
  - apply truthy_str in Hs. congruence.
  - assert (Hl : (length s < length (map b2n (b64encode (Fernet.encrypt e raw))))%nat).
    { pose proof (encode_length s raw Er) as Hr.
      rewrite length_map, b64encode_length. unfold Fernet.encrypt.
      rewrite encrypt_from_parts_data, urlsafe_b64encode_length.
      rewrite (token_data_length L) by apply os_urandom_length.
      set (n := length raw) in *.
      set (d := (57 + 16 * (Nat.div n 16 + 1) + 2)%nat).
      set (t := (4 * Nat.div d 3 + 2)%nat).
      pose proof (Nat.div_mod_eq n 16).
      pose proof (Nat.mod_upper_bound n 16 ltac:(lia)).
      pose proof (Nat.div_mod_eq d 3).
      pose proof (Nat.mod_upper_bound d 3 ltac:(lia)).
      pose proof (Nat.div_mod_eq t 3).
      pose proof (Nat.mod_upper_bound t 3 ltac:(lia)).
      unfold t, d in *. lia. }
    split; [exact Hl|]. intros Heq. rewrite Heq in Hl. lia.
Qed.

Lemma stored_text_longer_than_plaintext_witness :
  (length (lit "a") < length sample_ciphertext)%nat
  /\ sample_ciphertext <> lit "a".
Proof.
  apply (stored_text_longer_than_plaintext
           stand_in stand_in_lawful sample_entropy).
  - discriminate.
  - vm_compute. reflexivity.
Defined.

(** X4.  Two calls of [encrypt_text] on the same string that read different
    IVs, or clock readings that differ in their 64 low bits, return different
    texts; [decrypt_text] returns the string for both. *)
Theorem fresh_entropy_fresh_text
        (P : Primitives) (L : Lawful P) (e1 e2 : entropy) (s : str)
        (w : world) :
  s <> [] -> encodable s ->
  os_urandom e1 16 <> os_urandom e2 16
  \/ (time_time e1 mod 2 ^ 64 <> time_time e2 mod 2 ^ 64)%N ->
  exists c1 c2,
    encrypt_text e1 (JStr s) = Ok c1 /\ encrypt_text e2 (JStr s) = Ok c2
    /\ c1 <> c2
    /\ decrypt_text c1 w = (Ok s, w) /\ decrypt_text c2 w = (Ok s, w).
Proof.
  intros Hs He Hd. destruct (encode_encodable s He) as [raw Hr].
  exists (map b2n (b64encode (Fernet.encrypt e1 raw))),
    (map b2n (b64encode (Fernet.encrypt e2 raw))).
  pose proof (encrypt_text_str e1 s raw Hs Hr) as H1.
  pose proof (encrypt_text_str e2 s raw Hs Hr) as H2.
  split; [exact H1|]. split; [exact H2|]. split.
  - intros Heq. apply map_b2n_inj, b64encode_inj in Heq.
    destruct (encrypt_eq_entropy e1 e2 raw raw Heq) as [Hiv Ht].
    destruct Hd as [Hd | Hd]; now apply Hd.
  - split.
    + exact (decrypt_text_encrypt_text e1 (JStr s) _ w L H1).
    + exact (decrypt_text_encrypt_text e2 (JStr s) _ w L H2).
Qed.

Lemma fresh_entropy_fresh_text_witness :
  exists c1 c2,
    @encrypt_text stand_in sample_entropy (JStr (lit "milk")) = Ok c1
    /\ @encrypt_text stand_in other_entropy (JStr (lit "milk")) = Ok c2
    /\ c1 <> c2
    /\ @decrypt_text stand_in c1 initial = (Ok (lit "milk"), initial)
    /\ @decrypt_text stand_in c2 initial = (Ok (lit "milk"), initial).
Proof.
  apply (fresh_entropy_fresh_text stand_in stand_in_lawful
           sample_entropy other_entropy (lit "milk") initial).
  - discriminate.
  - apply encodable_lit.
  - left. vm_compute. discriminate.
Defined.

(** X5.  A stored text belongs to one plaintext: when two calls of
    [encrypt_text], under any entropies, return the same text, the two
    request values stand for the same string. *)
Theorem equal_stored_texts_equal_plaintexts
        (P : Primitives) (L : Lawful P) (e1 e2 : entropy) (v1 v2 : json)
        (c : str) :
  encrypt_text e1 v1 = Ok c -> encrypt_text e2 v2 = Ok c ->
  text_of v1 = text_of v2.
Proof.
  intros H1 H2.
  pose proof (decrypt_text_encrypt_text e1 v1 c initial L H1) as D1.
  pose proof (decrypt_text_encrypt_text e2 v2 c initial L H2) as D2.
  rewrite D1 in D2. apply (f_equal fst) in D2. cbn [fst] in D2.
  now apply Ok_inj in D2.
Qed.

Lemma equal_stored_texts_equal_plaintexts_witness :
  text_of (JStr []) = text_of JNull.
Proof.
  apply (equal_stored_texts_equal_plaintexts
           stand_in stand_in_lawful sample_entropy other_entropy
           (JStr []) JNull []); reflexivity.
Defined.

(* ================================================================== *)
(** * Part XI: the start of the process *)
(* ================================================================== *)

Module StartupFacts.
Import Base64 Fernet KeyStore Config.
Import BytesFacts Base64Facts FernetFacts.

Lemma path_exists_write p c fs : path_exists p (write_file p c fs) = true.
Proof. unfold write_file. cbn [path_exists]. now rewrite str_eqb_refl. Qed.

Lemma read_file_write p c fs : read_file p (write_file p c fs) = c.
Proof. unfold write_file. cbn [read_file]. now rewrite str_eqb_refl. Qed.

Lemma str_eqb_neq a b : a <> b -> str_eqb a b = false.
Proof.
  intros H. destruct (str_eqb a b) eqn:E; [|reflexivity].
  now apply str_eqb_eq in E.
Qed.

Lemma str_eqb_sym a b : str_eqb a b = str_eqb b a.
Proof.
  destruct (str_eqb a b) eqn:E.
  - apply str_eqb_eq in E. subst. symmetry. apply str_eqb_refl.
  - symmetry. apply str_eqb_neq. intros ->. now rewrite str_eqb_refl in E.
Qed.

(** Writing a file leaves the other files as they are. *)
Lemma write_file_other p q c fs :
  q <> p ->
  path_exists q (write_file p c fs) = path_exists q fs
  /\ read_file q (write_file p c fs) = read_file q fs.
Proof.
  intros Hn. unfold write_file. cbn [path_exists read_file].
  rewrite (str_eqb_neq q p Hn). cbn [orb].
  induction fs as [|[p' c'] fs [IH1 IH2]]; [now split|].
  cbn [filter fst]. destruct (str_eqb p p') eqn:E; cbn [negb].
  - apply str_eqb_eq in E. subst p'. cbn [path_exists read_file].
    rewrite (str_eqb_neq q p Hn). cbn [orb]. now split.
  - cbn [path_exists read_file]. rewrite IH1, IH2. now split.
Qed.

Lemma generate_key_length e : length (generate_key e) = 44.
Proof.
  unfold generate_key. now rewrite urlsafe_b64encode_length, os_urandom_length.
Qed.

Lemma fernet_init_generate_key e :
  fernet_init (generate_key e)
  = Ok (firstn 16 (os_urandom e 32), skipn 16 (os_urandom e 32)).
Proof.
  unfold fernet_init, generate_key.
  now rewrite urlsafe_b64decode_b64encode, os_urandom_length.
Qed.

Lemma startswith_app p s : startswith (p ++ s) p = true.
Proof.
  induction p as [|c p IH]; [now destruct s|].
  cbn [app startswith]. now rewrite N.eqb_refl, IH.
Qed.

Lemma replace_first_prefix old new s :
  startswith s old = true ->
  replace_first old new s = new ++ skipn (length old) s.
Proof. intros H. destruct s; cbn [replace_first]; now rewrite H. Qed.

End StartupFacts.

Import KeyStore Config StartupFacts.

(** X6.  [get_or_create_key] returns the same key when it is called again on
    the files it left, whatever the randomness of the second call, and leaves
    these files as they are: a key file that exists is read, never written.
    The first call changes no other file. *)
Theorem key_survives_restart (e e' : entropy) (fs : filesystem) :
  get_or_create_key e' (snd (get_or_create_key e fs))
  = get_or_create_key e fs
  /\ (path_exists key_file fs = true ->
      get_or_create_key e fs = (read_file key_file fs, fs))
  /\ (forall p, p <> key_file ->
        path_exists p (snd (get_or_create_key e fs)) = path_exists p fs
        /\ read_file p (snd (get_or_create_key e fs)) = read_file p fs).
Proof.
  unfold get_or_create_key.
  destruct (path_exists key_file fs) eqn:Hx; cbn [snd].
  - rewrite Hx. split; [reflexivity|]. split; [reflexivity|]. now split.
  - rewrite path_exists_write, read_file_write.
    split; [reflexivity|]. split; [discriminate|].
    intros p Hp. now apply write_file_other.
Qed.

(** X7.  On a directory without key file, the start of the process writes a
    key of 44 characters that [Fernet] accepts: the signing key and the
    encryption key are the two halves of the 32 random bytes.  A later start,
    whatever its randomness, reads the same two keys and writes nothing. *)
Theorem fresh_key_is_accepted (e e' : entropy) (fs : filesystem) :
  path_exists key_file fs = false ->
  initialize_encryption e fs
  = (Ok (firstn 16 (os_urandom e 32), skipn 16 (os_urandom e 32)),
     write_file key_file (generate_key e) fs)
  /\ length (generate_key e) = 44
  /\ initialize_encryption e' (write_file key_file (generate_key e) fs)
     = initialize_encryption e fs.
Proof.
  intros Hx.
  assert (H1 : initialize_encryption e fs
               = (Ok (firstn 16 (os_urandom e 32), skipn 16 (os_urandom e 32)),
                  write_file key_file (generate_key e) fs)).
  { unfold initialize_encryption, get_or_create_key. rewrite Hx.
    now rewrite fernet_init_generate_key. }
  split; [exact H1|]. split; [apply generate_key_length|].
  rewrite H1. unfold initialize_encryption, get_or_create_key.
  rewrite path_exists_write, read_file_write.
  now rewrite fernet_init_generate_key.
Qed.

Lemma fresh_key_is_accepted_witness :
  path_exists key_file [] = false
  /\ length (generate_key sample_entropy) = 44.
Proof.
  split; [reflexivity|].
  apply (fresh_key_is_accepted sample_entropy other_entropy []).
  reflexivity.
Defined.

(** X8.  When the key file exists and its content is not the URL-safe base64
    encoding of 32 bytes (an empty file, for one), the start of the process
    raises [ValueError] and the file stays as it is: no key is generated in
    its place. *)
Theorem unusable_key_file_is_kept (e : entropy) (fs : filesystem) :
  path_exists key_file fs = true ->
  (forall k, urlsafe_b64decode (read_file key_file fs) = Ok k ->
             length k <> 32) ->
  initialize_encryption e fs = (Raise ValueError, fs).
Proof.
  intros Hx Hk. unfold initialize_encryption, get_or_create_key.
  rewrite Hx. unfold fernet_init.
  destruct (urlsafe_b64decode (read_file key_file fs)) as [k|x] eqn:Hd;
    [|reflexivity].
  specialize (Hk k eq_refl).
  now rewrite (proj2 (Nat.eqb_neq _ _) Hk).
Qed.

Lemma unusable_key_file_is_kept_witness :
  initialize_encryption sample_entropy [(key_file, [])]
  = (Raise ValueError, [(key_file, [])]).
Proof.
  apply unusable_key_file_is_kept.
  - reflexivity.
  - intros k H. vm_compute in H. apply Ok_inj in H. subst k. discriminate.
Defined.

(** X9.  The database URI that the application configures never begins with
    the legacy scheme [postgres://], whatever the environment. *)
Theorem database_uri_never_legacy (env : environ) :
  startswith (sqlalchemy_database_uri env) (lit "postgres://") = false.
Proof.
  unfold sqlalchemy_database_uri.
  destruct (env (lit "DATABASE_URL")) as [url|]; [|reflexivity].
  destruct (length url =? 0)%nat; cbn [negb]; [reflexivity|].
  destruct (startswith url (lit "postgres://")) eqn:Hs; [|exact Hs].
  rewrite (replace_first_prefix _ _ _ Hs). reflexivity.
Qed.

(** X10.  With [DATABASE_URL] unset or empty the URI is that of the local
    SQLite file; a URL that begins with [postgres://] has this prefix, and
    nothing else, replaced by [postgresql://]; any other URL is taken as it
    is. *)
Theorem database_uri_cases (env : environ) :
  (env (lit "DATABASE_URL") = None \/ env (lit "DATABASE_URL") = Some [] ->
   sqlalchemy_database_uri env = lit "sqlite:///notes.db")
  /\ (forall rest,
        env (lit "DATABASE_URL") = Some (lit "postgres://" ++ rest) ->
        sqlalchemy_database_uri env = lit "postgresql://" ++ rest)
  /\ (forall url,
        env (lit "DATABASE_URL") = Some url -> url <> [] ->
        startswith url (lit "postgres://") = false ->
        sqlalchemy_database_uri env = url).
Proof.
  unfold sqlalchemy_database_uri. split; [|split].
  - intros [-> | ->]; reflexivity.
  - intros rest ->. cbn [negb].
    replace (length (lit "postgres://" ++ rest) =? 0)%nat with false
      by reflexivity.
    cbn [negb]. rewrite startswith_app.
    rewrite (replace_first_prefix _ _ _ (startswith_app _ rest)).
    reflexivity.
  - intros url -> Hn Hs. rewrite Hs.
    destruct url; [congruence | reflexivity].
Qed.

Lemma database_uri_cases_witness :
  sqlalchemy_database_uri
    (fun _ => Some (lit "postgres://u:p@host/db?x=postgres://y"))
  = lit "postgresql://u:p@host/db?x=postgres://y".
Proof.
  apply (proj1 (proj2 (database_uri_cases
           (fun _ => Some (lit "postgres://u:p@host/db?x=postgres://y"))))
           (lit "u:p@host/db?x=postgres://y")).
  reflexivity.
Defined.

(* ================================================================== *)
(** * Part XII: further properties of the repository *)
(* ================================================================== *)

Module RepositoryFacts.
Import Utf8 Base64 Fernet App.
Import BytesFacts Utf8Facts Base64Facts FernetFacts WrapperFacts AppFacts.
Import TableFacts StoredFacts InvariantFacts CipherFacts.

Section Outcomes.
Context {P : Primitives} {E : Engine}.

(** [from_dict] raises on the bodies that are not acceptable, and never
    [NotFound]. *)
Lemma from_dict_raise env data x :
  from_dict env data = Raise x -> x <> NotFound /\ ~ acceptable data.
Proof.
  destruct data as [| | | | |fields];
    try (intros H; split;
         [ intros ->; discriminate H
         | intros (fields & Hj & _); discriminate Hj ]).
  rewrite from_dict_object.
  destruct (encrypt_text (title_entropy env) (title_of fields)) as [t|y] eqn:Ht.
  - destruct (encrypt_text (content_entropy env) (content_of fields))
      as [c|y] eqn:Hc; cbn [bind]; [discriminate|].
    intros [= ->]. split.
    + destruct (encrypt_text_raise _ _ _ Hc) as [[-> _] | [-> _]]; discriminate.
    + intros (fields' & [= <-] & _ & Hs).
      destruct (encrypt_text_total (content_entropy env) _ Hs) as [c Hc'].
      congruence.
  - cbn [bind]. intros [= ->]. split.
    + destruct (encrypt_text_raise _ _ _ Ht) as [[-> _] | [-> _]]; discriminate.
    + intros (fields' & [= <-] & Hs & _).
      destruct (encrypt_text_total (title_entropy env) _ Hs) as [t Ht'].
      congruence.
Qed.

Lemma from_dict_acceptable env data note :
  from_dict env data = Ok note -> acceptable data.
Proof.
  intros H. destruct (from_dict_ok env data note H) as (fields & -> & Ht & Hc).
  exists fields. split; [reflexivity|]. split.
  - exact (encrypt_text_ok_storable _ _ _ Ht).
  - exact (encrypt_text_ok_storable _ _ _ Hc).
Qed.

(** [update_note] on a key in use raises what [from_dict] raises on the same
    body, and writes nothing. *)
Lemma update_note_raises env note_id data w old x :
  find (fun r => (id r =? note_id)%Z) (table w) = Some old ->
  from_dict env data = Raise x ->
  update_note env note_id data w = (Raise x, w).
Proof.
  intros Hf Hr. destruct (get_or_404_found _ _ _ Hf) as [Hg _].
  unfold update_note. unfold bindM at 1. rewrite Hg.
  unfold bindM, lift.
  destruct data as [| | | | |fields];
    try (cbn [method_get]; cbn in Hr; congruence).
  rewrite from_dict_object in Hr. unfold method_get.
  fold (title_of fields). fold (content_of fields).
  destruct (encrypt_text (title_entropy env) (title_of fields)) as [t|y];
    cbn [bind] in Hr; [|congruence].
  destruct (encrypt_text (content_entropy env) (content_of fields)) as [c|y];
    cbn [bind] in Hr; [discriminate | congruence].
Qed.

End Outcomes.

(** *** Keys *)

Lemma key_lt_snoc l x :
  StronglySorted key_lt l -> Forall (fun r => key_lt r x) l ->
  StronglySorted key_lt (l ++ [x]).
Proof.
  induction 1 as [|a l Hs IH Ha]; intros Hx; cbn [app].
  - repeat constructor.
  - apply Forall_cons_iff in Hx. destruct Hx as [Hax Hx].
    constructor; [now apply IH|].
    apply Forall_app. split; [exact Ha | now constructor].
Qed.

Lemma key_lt_map f l :
  (forall x, id (f x) = id x) ->
  StronglySorted key_lt l -> StronglySorted key_lt (map f l).
Proof.
  intros Hf. induction 1 as [|a l Hs IH Ha]; cbn [map]; constructor.
  - exact IH.
  - apply Forall_map. eapply Forall_impl; [|exact Ha].
    intros x Hx. unfold key_lt in *. now rewrite !Hf.
Qed.

Lemma key_lt_filter f l :
  StronglySorted key_lt l -> StronglySorted key_lt (filter f l).
Proof.
  induction 1 as [|a l Hs IH Ha]; cbn [filter]; [constructor|].
  destruct (f a); [|exact IH]. constructor; [exact IH|].
  apply Forall_forall. intros x Hx. apply filter_In in Hx.
  rewrite Forall_forall in Ha. now apply Ha.
Qed.

(** In a table sorted by key, the rows of a key in use are one row. *)
Lemma filter_key_length k l old :
  StronglySorted key_lt l -> In old l -> id old = k ->
  length l = S (length (filter (fun x => negb (id x =? k)%Z) l)).
Proof.
  induction 1 as [|a l Hs IH Ha]; intros Hin Hk; [contradiction|].
  cbn [filter length]. destruct (id a =? k)%Z eqn:He; cbn [negb].
  - f_equal. apply Z.eqb_eq in He. symmetry. f_equal.
    apply forallb_filter_id. apply forallb_forall. intros x Hx.
    rewrite Forall_forall in Ha. specialize (Ha x Hx). unfold key_lt in Ha.
    apply negb_true_iff, Z.eqb_neq. lia.
  - cbn [length]. f_equal. destruct Hin as [-> | Hin].
    + apply Z.eqb_neq in He. congruence.
    + now apply IH.
Qed.

(** The rows of a table have keys other than the next one. *)
Lemma filter_next_rowid rows :
  filter (fun x => negb (id x =? next_rowid rows)%Z) rows = rows.
Proof.
  apply forallb_filter_id. apply forallb_forall. intros x Hx.
  pose proof (next_rowid_above rows x Hx).
  apply negb_true_iff, Z.eqb_neq. lia.
Qed.

Lemma find_app_none (f : Note -> bool) l1 l2 :
  find f l1 = None -> find f (l1 ++ l2) = find f l2.
Proof.
  induction l1 as [|a l1 IH]; [reflexivity|].
  cbn [app find]. destruct (f a); [discriminate | exact IH].
Qed.

(** A row appended under the next key is the row found under that key. *)
Lemma find_snoc_fresh rows row :
  id row = next_rowid rows ->
  find (fun x => (id x =? next_rowid rows)%Z) (rows ++ [row]) = Some row.
Proof.
  intros Hid. rewrite find_app_none by apply next_rowid_fresh.
  cbn [find]. now rewrite Hid, Z.eqb_refl.
Qed.

(** The row written by an UPDATE is the row found under its key. *)
Lemma find_after_update k row rows old :
  id row = k ->
  find (fun x => (id x =? k)%Z) rows = Some old ->
  find (fun x => (id x =? k)%Z)
       (map (fun x => if (id x =? k)%Z then row else x) rows) = Some row.
Proof.
  intros Hid. induction rows as [|a rows IH]; [discriminate|].
  cbn [find map]. destruct (id a =? k)%Z eqn:He.
  - intros _. now rewrite Hid, Z.eqb_refl.
  - rewrite He. exact IH.
Qed.

Section Keys.
Context {P : Primitives} {E : Engine}.

(** What a request does to the table, with the keys: nothing, a row appended
    under the next key, the row of a key in use replaced by a row of the same
    key, or the rows of a key removed. *)
Lemma step_keys r w :
  table (step w r) = table w
  \/ (exists row,
        id row = next_rowid (table w)
        /\ table (step w r) = table w ++ [row])
  \/ (exists key row,
        id row = key
        /\ table (step w r)
           = map (fun x => if (id x =? key)%Z then row else x) (table w))
  \/ (exists key,
        table (step w r) = filter (fun x => negb (id x =? key)%Z) (table w)).
Proof.
  unfold step. rewrite serve_world.
  destruct r as [|env data|env note_id data|note_id|]; cbn [handler].
  - left. destruct (get_notes_run w) as (ls & ->). reflexivity.
  - destruct (from_dict env data) as [note|e] eqn:Hf.
    + right. left.
      rewrite (create_note_run env data note w Hf). cbn [snd table].
      eexists. split; [|reflexivity]. reflexivity.
    + left. now rewrite (create_note_raise env data e w Hf).
  - destruct (find (fun x => (id x =? note_id)%Z) (table w)) as [old|] eqn:Ho.
    + destruct (from_dict env data) as [note|e] eqn:Hf.
      * right. right. left.
        destruct (from_dict_ok env data note Hf) as (fields & -> & Ht & Hc).
        rewrite (update_note_run env note_id fields w old _ _ Ho Ht Hc).
        cbn [snd table]. exists note_id. eexists. split; [|reflexivity].
        reflexivity.
      * left. now rewrite (update_note_raises env note_id data w old e Ho Hf).
    + left. destruct (update_note_absent env note_id data w Ho)
        as (e & -> & _). reflexivity.
  - destruct (find (fun x => (id x =? note_id)%Z) (table w)) as [old|] eqn:Ho.
    + right. right. right. exists note_id.
      now rewrite (delete_note_run note_id w old Ho).
    + left. destruct (delete_note_absent note_id w Ho) as (e & -> & _).
      reflexivity.
  - left. reflexivity.
Qed.

Lemma next_rowid_positive rows :
  Forall (fun r => (1 <= id r)%Z) rows -> (1 <= next_rowid rows)%Z.
Proof.
  intros H. destruct rows as [|a rows]; [reflexivity|].
  apply Forall_inv in H.
  pose proof (next_rowid_above (a :: rows) a (or_introl eq_refl)). lia.
Qed.

Lemma step_keys_sorted r w :
  StronglySorted key_lt (table w) /\ Forall (fun x => (1 <= id x)%Z) (table w) ->
  StronglySorted key_lt (table (step w r))
  /\ Forall (fun x => (1 <= id x)%Z) (table (step w r)).
Proof.
  intros [Hs Hp].
  destruct (step_keys r w)
    as [-> | [(row & Hid & ->) | [(key & row & Hid & ->) | (key & ->)]]].
  - now split.
  - split.
    + apply key_lt_snoc; [exact Hs|]. apply Forall_forall. intros x Hx.
      unfold key_lt. rewrite Hid. now apply next_rowid_above.
    + apply Forall_app. split; [exact Hp|]. constructor; [|constructor].
      rewrite Hid. now apply next_rowid_positive.
  - assert (Hf : forall x, id (if (id x =? key)%Z then row else x) = id x).
    { intros x. destruct (id x =? key)%Z eqn:He; [|reflexivity].
      apply Z.eqb_eq in He. congruence. }
    split.
    + now apply key_lt_map.
    + apply Forall_map. eapply Forall_impl; [|exact Hp].
      intros x Hx. cbv beta. now rewrite Hf.
  - split.
    + now apply key_lt_filter.
    + apply Forall_forall. intros x Hx. apply filter_In in Hx.
      rewrite Forall_forall in Hp. now apply Hp.
Qed.

Lemma reachable_keys_sorted w :
  reachable w ->
  StronglySorted key_lt (table w) /\ Forall (fun x => (1 <= id x)%Z) (table w).
Proof.
  intros [rs ->]. unfold run.
  assert (H0 : StronglySorted key_lt (table initial)
               /\ Forall (fun x => (1 <= id x)%Z) (table initial))
    by (split; constructor).
  revert H0. generalize initial as w.
  induction rs as [|r rs IH]; intros w Hw; [exact Hw|].
  cbn [fold_left]. apply IH. now apply step_keys_sorted.
Qed.

Lemma key_lt_NoDup l : StronglySorted key_lt l -> NoDup (map id l).
Proof.
  induction 1 as [|a l Hs IH Ha]; cbn [map]; constructor; [|exact IH].
  intros Hin. apply in_map_iff in Hin. destruct Hin as (x & Hx & Hin).
  rewrite Forall_forall in Ha. specialize (Ha x Hin). unfold key_lt in Ha.
  lia.
Qed.

(** The rows that [to_dict] prints nothing for. *)
Lemma well_stored_printed c : Lawful P -> well_stored c -> printed c = [].
Proof.
  intros L [-> | (s & Hs & Hd)]; [apply shown_empty|].
  destruct c as [|x c].
  - apply shown_empty.
  - exact (proj2 (shown_ok (x :: c) s ltac:(discriminate) Hd)).
Qed.

Lemma mapM_to_dict_quiet ns w :
  Lawful P -> Forall row_well_stored ns ->
  mapM to_dict ns w = (Ok (map view_of ns), w).
Proof.
  intros L H. revert w. induction H as [|n ns [Ht Hc] _ IH]; intros w.
  - reflexivity.
  - cbn [mapM]. unfold bindM at 1. rewrite to_dict_run.
    rewrite (well_stored_printed _ L Ht), (well_stored_printed _ L Hc).
    cbn [app]. rewrite log_nil. unfold bindM at 1. now rewrite IH.
Qed.

End Keys.

End RepositoryFacts.

Import RepositoryFacts.

(** X11.  [create_note] is all or nothing.  On an acceptable body (an object
    whose title and content, or their defaults, count as false or are strings
    with a UTF-8 encoding) it answers 201 with the view of the texts of the
    request and appends one row, under the next key.  On any other body (no
    object, a number for title, a string with a surrogate) it answers 500 and
    leaves the table and the output as they were.  It never answers 404. *)
Theorem create_note_all_or_nothing
        (P : Primitives) (L : Lawful P) (E : Engine)
        (env : request_env) (data : json) (w : world) :
  (exists fields t c,
      data = JObj fields
      /\ storable (title_of fields) /\ storable (content_of fields)
      /\ serve (create_note env data) w
         = ({| status := 201;
               payload := NoteView
                 {| v_id := next_rowid (table w);
                    v_title := text_of (title_of fields);
                    v_content := text_of (content_of fields);
                    v_timestamp := strftime (utcnow env) |} |},
            {| table := table w ++ [row_of env (next_rowid (table w)) t c];
               stdout := stdout w |}))
  \/ (~ acceptable data
      /\ serve (create_note env data) w
         = ({| status := 500; payload := ErrorPage |}, w)).
Proof.
  destruct (from_dict env data) as [note|x] eqn:Hf.
  - left. destruct (from_dict_ok env data note Hf) as (fields & -> & Ht & Hc).
    exists fields, (new_title_encrypted note), (new_content_encrypted note).
    split; [reflexivity|].
    split; [exact (encrypt_text_ok_storable _ _ _ Ht)|].
    split; [exact (encrypt_text_ok_storable _ _ _ Hc)|].
    unfold serve. now rewrite (create_note_stored L env fields w _ _ Ht Hc).
  - right. destruct (from_dict_raise env data x Hf) as [Hx Hn].
    split; [exact Hn|].
    rewrite (serve_raise _ w x (create_note_raise env data x w Hf)).
    now destruct x.
Qed.

Lemma create_note_all_or_nothing_witness :
  serve (@create_note stand_in sample_env (JArr [JStr (lit "x")])) initial
  = ({| status := 500; payload := ErrorPage |}, initial).
Proof.
  destruct (create_note_all_or_nothing
              stand_in stand_in_lawful stable_engine sample_env
              (JArr [JStr (lit "x")]) initial)
    as [(fields & t & c & Hj & _) | [_ H]].
  - discriminate Hj.
  - exact H.
Defined.

(** X12.  [update_note] is all or nothing.  When no row has the key it
    answers 404 for a key below [2 ^ 63] and 500 for a key from [2 ^ 63];
    when a row has the key it answers 200 if the body is acceptable and 500
    if it is not.  Only with 200 is anything written, and then both fields
    and the timestamp of that row: a body whose title is stored and whose
    content is refused changes neither. *)
Theorem update_note_all_or_nothing
        (P : Primitives) (L : Lawful P) (E : Engine)
        (env : request_env) (note_id : Z) (data : json) (w : world) :
  (find (fun r => (id r =? note_id)%Z) (table w) = None
   /\ (note_id < 2 ^ 63)%Z
   /\ serve (update_note env note_id data) w
      = ({| status := 404; payload := ErrorPage |}, w))
  \/ (find (fun r => (id r =? note_id)%Z) (table w) = None
      /\ (2 ^ 63 <= note_id)%Z
      /\ serve (update_note env note_id data) w
         = ({| status := 500; payload := ErrorPage |}, w))
  \/ (exists old fields t c,
        find (fun r => (id r =? note_id)%Z) (table w) = Some old
        /\ data = JObj fields
        /\ storable (title_of fields) /\ storable (content_of fields)
        /\ serve (update_note env note_id data) w
           = ({| status := 200;
                 payload := NoteView
                   {| v_id := note_id;
                      v_title := text_of (title_of fields);
                      v_content := text_of (content_of fields);
                      v_timestamp := strftime (utcnow env) |} |},
              {| table := map (fun r => if (id r =? note_id)%Z
                                        then row_of env note_id t c else r)
                              (table w);
                 stdout := stdout w |}))
  \/ (exists old,
        find (fun r => (id r =? note_id)%Z) (table w) = Some old
        /\ ~ acceptable data
        /\ serve (update_note env note_id data) w
           = ({| status := 500; payload := ErrorPage |}, w)).
Proof.
  destruct (find (fun r => (id r =? note_id)%Z) (table w)) as [old|] eqn:Ho.
  - right. right. destruct (from_dict env data) as [note|x] eqn:Hf.
    + left. destruct (from_dict_ok env data note Hf) as (fields & -> & Ht & Hc).
      exists old, fields, (new_title_encrypted note),
        (new_content_encrypted note).
      split; [reflexivity|]. split; [reflexivity|].
      split; [exact (encrypt_text_ok_storable _ _ _ Ht)|].
      split; [exact (encrypt_text_ok_storable _ _ _ Hc)|].
      unfold serve.
      now rewrite (update_note_stored L env note_id fields w old _ _ Ho Ht Hc).
    + right. exists old. destruct (from_dict_raise env data x Hf) as [Hx Hn].
      split; [reflexivity|]. split; [exact Hn|].
      rewrite (serve_raise _ w x
                 (update_note_raises env note_id data w old x Ho Hf)).
      now destruct x.
  - destruct (Z.lt_ge_cases note_id (2 ^ 63)) as [Hb | Hb].
    + left. split; [reflexivity|]. split; [exact Hb|].
      exact (serve_raise _ w NotFound
               (update_note_missing env note_id data w Ho Hb)).
    + right. left. split; [reflexivity|]. split; [exact Hb|].
      exact (serve_raise _ w OverflowError
               (update_note_overflow env note_id data w Ho Hb)).
Qed.

Lemma update_note_all_or_nothing_witness :
  serve (@update_note stand_in sample_env 9 groceries) sample_world
  = ({| status := 404; payload := ErrorPage |}, sample_world)
  /\ serve (@update_note stand_in sample_env (2 ^ 63) groceries) sample_world
     = ({| status := 500; payload := ErrorPage |}, sample_world).
Proof.
  split.
  - destruct (update_note_all_or_nothing
                stand_in stand_in_lawful stable_engine sample_env 9
                groceries sample_world)
      as [(_ & _ & H) | [(_ & Hb & _)
                        | [(old & fields & t & c & Hf & _) | (old & Hf & _)]]].
    + exact H.
    + vm_compute in Hb. now elim Hb.
    + vm_compute in Hf. discriminate Hf.
    + vm_compute in Hf. discriminate Hf.
  - destruct (update_note_all_or_nothing
                stand_in stand_in_lawful stable_engine sample_env (2 ^ 63)
                groceries sample_world)
      as [(_ & Hb & _) | [(_ & _ & H)
                        | [(old & fields & t & c & Hf & _) | (old & Hf & _)]]].
    + vm_compute in Hb. discriminate Hb.
    + exact H.
    + vm_compute in Hf. discriminate Hf.
    + vm_compute in Hf. discriminate Hf.
Defined.

(** X13.  In every reachable table the keys rise strictly along the rows, in
    the order of insertion: they are positive and no two rows share a key. *)
Theorem reachable_keys_increase
        (P : Primitives) (E : Engine) (w : world) :
  reachable w ->
  StronglySorted key_lt (table w)
  /\ Forall (fun r => (1 <= id r)%Z) (table w)
  /\ NoDup (map id (table w)).
Proof.
  intros Hw. destruct (reachable_keys_sorted w Hw) as [Hs Hp].
  split; [exact Hs|]. split; [exact Hp|]. now apply key_lt_NoDup.
Qed.

Lemma reachable_keys_increase_witness :
  NoDup (map id (table rising_world)).
Proof.
  apply (reachable_keys_increase stand_in stable_engine rising_world).
  eexists. reflexivity.
Defined.

(** X14.  In a reachable table, [delete_note] on a key in use answers 204,
    removes exactly one row, and keeps every row of another key, in order;
    it prints nothing. *)
Theorem delete_note_removes_one_row
        (P : Primitives) (E : Engine) (note_id : Z) (w : world) (old : Note) :
  reachable w ->
  find (fun r => (id r =? note_id)%Z) (table w) = Some old ->
  serve (delete_note note_id) w
  = ({| status := 204; payload := Empty |},
     {| table := filter (fun r => negb (id r =? note_id)%Z) (table w);
        stdout := stdout w |})
  /\ length (table w)
     = S (length (filter (fun r => negb (id r =? note_id)%Z) (table w)))
  /\ (forall r, In r (filter (fun r => negb (id r =? note_id)%Z) (table w))
                <-> In r (table w) /\ id r <> note_id).
Proof.
  intros Hw Ho. split; [|split].
  - unfold serve. now rewrite (delete_note_run note_id w old Ho).
  - destruct (reachable_keys_sorted w Hw) as [Hs _].
    apply find_some in Ho. destruct Ho as [Hin He]. apply Z.eqb_eq in He.
    exact (filter_key_length note_id (table w) old Hs Hin He).
  - intros r. rewrite filter_In, negb_true_iff, Z.eqb_neq. reflexivity.
Qed.

Lemma delete_note_removes_one_row_witness :
  length (table rising_world)
  = S (length (filter (fun r => negb (id r =? 2)%Z) (table rising_world))).
Proof.
  refine (proj1 (proj2 (delete_note_removes_one_row
                          stand_in stable_engine 2 rising_world
                          (nth 1 (table rising_world)
                               (row_of sample_env 0 [] [])) _ _))).
  - eexists. reflexivity.
  - vm_compute. reflexivity.
Defined.

(** X15.  A note that was just created is found under the key of its view,
    and deleting it gives back the table as it was before the request. *)
Theorem create_then_delete_restores_table
        (P : Primitives) (L : Lawful P) (E : Engine)
        (env : request_env) (fields : list (str * json)) (w : world) :
  storable (title_of fields) -> storable (content_of fields) ->
  exists t c,
    let key := next_rowid (table w) in
    let w1 := snd (serve (create_note env (JObj fields)) w) in
    table w1 = table w ++ [row_of env key t c]
    /\ find (fun r => (id r =? key)%Z) (table w1) = Some (row_of env key t c)
    /\ fst (serve (delete_note key) w1) = {| status := 204; payload := Empty |}
    /\ table (snd (serve (delete_note key) w1)) = table w.
Proof.
  intros Hst Hsc.
  destruct (encrypt_text_total (title_entropy env) _ Hst) as [t Ht].
  destruct (encrypt_text_total (content_entropy env) _ Hsc) as [c Hc].
  exists t, c. cbv zeta.
  assert (Hw1 : snd (serve (create_note env (JObj fields)) w)
                = {| table := table w
                              ++ [row_of env (next_rowid (table w)) t c];
                     stdout := stdout w |}).
  { unfold serve. now rewrite (create_note_stored L env fields w t c Ht Hc). }
  rewrite Hw1. cbn [table].
  assert (Hf : find (fun r => (id r =? next_rowid (table w))%Z)
                    (table w ++ [row_of env (next_rowid (table w)) t c])
               = Some (row_of env (next_rowid (table w)) t c))
    by now apply find_snoc_fresh.
  split; [reflexivity|]. split; [exact Hf|].
  unfold serve.
  rewrite (delete_note_run (next_rowid (table w))
             {| table := table w ++ [row_of env (next_rowid (table w)) t c];
                stdout := stdout w |} _ Hf).
  cbn [fst snd table]. split; [reflexivity|].
  rewrite filter_app, filter_next_rowid. cbn [filter row_of id].
  rewrite Z.eqb_refl. cbn [negb]. apply app_nil_r.
Qed.

Lemma create_then_delete_restores_table_witness :
  table (snd (serve (@delete_note 2)
                (snd (serve (@create_note stand_in sample_env groceries)
                            sample_world))))
  = table sample_world.
Proof.
  destruct (create_then_delete_restores_table
              stand_in stand_in_lawful stable_engine sample_env
              [(lit "title", JStr (lit "Groceries"));
               (lit "content", JStr (lit "milk, eggs"))] sample_world)
    as (t & c & _ & _ & _ & H).
  - right. eexists. split; [reflexivity | apply encodable_lit].
  - right. eexists. split; [reflexivity | apply encodable_lit].
  - exact H.
Defined.

(** X16.  After an update answered 200 the row found under the key is the
    row of the request: its view is the one that was answered, and its
    timestamp that of the clock. *)
Theorem update_then_lookup
        (P : Primitives) (L : Lawful P) (E : Engine)
        (env : request_env) (note_id : Z) (fields : list (str * json))
        (w : world) (r : response) (w' : world) :
  serve (update_note env note_id (JObj fields)) w = (r, w') ->
  status r = 200%N ->
  exists row,
    find (fun x => (id x =? note_id)%Z) (table w') = Some row
    /\ payload r = NoteView (view_of row)
    /\ id row = note_id /\ timestamp row = utcnow env
    /\ shown (title_encrypted row) = text_of (title_of fields)
    /\ shown (content_encrypted row) = text_of (content_of fields).
Proof.
  intros Hs Hr.
  destruct (find (fun x => (id x =? note_id)%Z) (table w)) as [old|] eqn:Ho.
  - destruct (update_note_200 env note_id fields w r w' Hs Hr)
      as (t & c & Ht & Hc & Hw).
    exists (row_of env note_id t c).
    unfold serve in Hs.
    rewrite (update_note_run env note_id fields w old t c Ho Ht Hc) in Hs.
    injection Hs as <- <-. cbn [table payload].
    split; [now apply (find_after_update note_id _ (table w) old)|].
    split; [reflexivity|]. split; [reflexivity|]. split; [reflexivity|].
    cbn [row_of title_encrypted content_encrypted].
    split; [exact (proj1 (shown_encrypted _ _ t L Ht))
           | exact (proj1 (shown_encrypted _ _ c L Hc))].
  - destruct (update_note_absent env note_id (JObj fields) w Ho)
      as (x & Hx & _).
    rewrite (serve_raise _ w x Hx) in Hs.
    injection Hs as <- <-. cbn [status] in Hr. now destruct x.
Qed.

Lemma update_then_lookup_witness :
  exists row,
    find (fun x => (id x =? 1)%Z)
         (table (snd (serve (@update_note stand_in sample_env 1
                               (titled "Groceries v2")) sample_world)))
    = Some row
    /\ @shown stand_in (title_encrypted row) = lit "Groceries v2"
    /\ @shown stand_in (content_encrypted row) = [].
Proof.
  destruct (update_then_lookup
              stand_in stand_in_lawful stable_engine sample_env 1
              [(lit "title", JStr (lit "Groceries v2"))] sample_world
              (fst (serve (@update_note stand_in sample_env 1
                             (titled "Groceries v2")) sample_world))
              (snd (serve (@update_note stand_in sample_env 1
                             (titled "Groceries v2")) sample_world)))
    as (row & H1 & _ & _ & _ & H2 & H3).
  - apply surjective_pairing.
  - vm_compute. reflexivity.
  - exists row. split; [exact H1|]. split; [exact H2 | exact H3].
Defined.

(** X17.  After a create request answered 201, the listing holds the view
    that was answered and the views listed before, and nothing else. *)
Theorem listing_after_create
        (P : Primitives) (L : Lawful P) (E : Engine) (S : SqlOrderBy E)
        (env : request_env) (fields : list (str * json)) (w : world) :
  storable (title_of fields) -> storable (content_of fields) ->
  exists v vs vs' ls ls',
    fst (serve (create_note env (JObj fields)) w)
    = {| status := 201; payload := NoteView v |}
    /\ get_notes w
       = (Ok {| status := 200; payload := NoteList vs |}, log w ls)
    /\ get_notes (snd (serve (create_note env (JObj fields)) w))
       = (Ok {| status := 200; payload := NoteList vs' |},
          log (snd (serve (create_note env (JObj fields)) w)) ls')
    /\ Permutation vs' (v :: vs).
Proof.
  intros Hst Hsc.
  destruct (encrypt_text_total (title_entropy env) _ Hst) as [t Ht].
  destruct (encrypt_text_total (content_entropy env) _ Hsc) as [c Hc].
  set (row := row_of env (next_rowid (table w)) t c).
  assert (Hs : serve (create_note env (JObj fields)) w
               = ({| status := 201; payload := NoteView (view_of row) |},
                  {| table := table w ++ [row]; stdout := stdout w |})).
  { unfold serve, row.
    rewrite (create_note_stored L env fields w t c Ht Hc).
    now rewrite (proj1 (view_of_stored L env (next_rowid (table w))
                          _ _ _ _ t c Ht Hc)). }
  rewrite Hs. cbn [fst snd].
  destruct (get_notes_run w) as (ls & Hg).
  destruct (get_notes_run {| table := table w ++ [row]; stdout := stdout w |})
    as (ls' & Hg').
  cbn [table] in Hg'.
  exists (view_of row), (map view_of (order_by_timestamp_desc (table w))),
    (map view_of (order_by_timestamp_desc (table w ++ [row]))), ls, ls'.
  split; [reflexivity|]. split; [exact Hg|]. split; [exact Hg'|].
  change (view_of row :: map view_of (order_by_timestamp_desc (table w)))
    with (map view_of (row :: order_by_timestamp_desc (table w))).
  apply Permutation_map.
  eapply perm_trans; [apply Permutation_sym, (proj1 (S _))|].
  eapply perm_trans; [apply Permutation_sym, Permutation_cons_append|].
  apply perm_skip. exact (proj1 (S _)).
Qed.

Lemma listing_after_create_witness :
  exists v vs vs' ls ls',
    fst (serve (@create_note stand_in sample_env (titled "B")) sample_world)
    = {| status := 201; payload := NoteView v |}
    /\ @get_notes stand_in stable_engine sample_world
       = (Ok {| status := 200; payload := NoteList vs |}, log sample_world ls)
    /\ @get_notes stand_in stable_engine
         (snd (serve (@create_note stand_in sample_env (titled "B"))
                     sample_world))
       = (Ok {| status := 200; payload := NoteList vs' |},
          log (snd (serve (@create_note stand_in sample_env (titled "B"))
                          sample_world)) ls')
    /\ Permutation vs' (v :: vs).
Proof.
  apply (listing_after_create stand_in stand_in_lawful stable_engine
           OrderFacts.stable_engine_order_by sample_env
           [(lit "title", JStr (lit "B"))] sample_world).
  - right. eexists. split; [reflexivity | apply encodable_lit].
  - right. eexists. split; [reflexivity | apply encodable_lit].
Defined.

(** X18.  The count that [health_check] answers is the number of views that
    [get_notes] lists, and the number of rows; neither request changes the
    table, and [health_check] prints nothing. *)
Theorem health_check_counts_listing
        (P : Primitives) (E : Engine) (S : SqlOrderBy E) (w : world) :
  exists vs ls,
    get_notes w = (Ok {| status := 200; payload := NoteList vs |}, log w ls)
    /\ health_check w
       = (Ok {| status := 200; payload := Health (length vs) |}, w)
    /\ length vs = length (table w).
Proof.
  destruct (get_notes_run w) as (ls & Hg).
  exists (map view_of (order_by_timestamp_desc (table w))), ls.
  assert (Hl : length (map view_of (order_by_timestamp_desc (table w)))
               = length (table w)).
  { rewrite length_map. symmetry. apply Permutation_length, (proj1 (S _)). }
  split; [exact Hg|]. split; [|exact Hl].
  unfold health_check, ret. now rewrite Hl.
Qed.

Lemma health_check_counts_listing_witness :
  exists vs ls,
    @get_notes stand_in stable_engine rising_world
    = (Ok {| status := 200; payload := NoteList vs |}, log rising_world ls)
    /\ health_check rising_world
       = (Ok {| status := 200; payload := Health (length vs) |}, rising_world)
    /\ length vs = length (table rising_world).
Proof.
  exact (health_check_counts_listing stand_in stable_engine
           OrderFacts.stable_engine_order_by rising_world).
Defined.

(** X19.  On a reachable table, that is on rows that the application wrote
    under the key it still holds, [get_notes] prints no diagnostic and leaves
    the world as it is: every stored field decrypts. *)
Theorem reachable_listing_prints_nothing
        (P : Primitives) (L : Lawful P) (E : Engine) (S : SqlOrderBy E)
        (w : world) :
  reachable w ->
  get_notes w
  = (Ok {| status := 200;
           payload := NoteList
             (map view_of (order_by_timestamp_desc (table w))) |}, w)
  /\ Forall (fun n => printed (title_encrypted n) = []
                      /\ printed (content_encrypted n) = []) (table w).
Proof.
  intros Hw. pose proof (reachable_well_stored L w Hw) as Hall.
  split.
  - unfold get_notes, bindM, ret.
    rewrite (mapM_to_dict_quiet _ w L); [reflexivity|].
    eapply Permutation_Forall; [exact (proj1 (S _)) | exact Hall].
  - eapply Forall_impl; [|exact Hall]. intros n [Ht Hc].
    split; now apply well_stored_printed.
Qed.

Lemma reachable_listing_prints_nothing_witness :
  snd (@get_notes stand_in stable_engine rising_world) = rising_world.
Proof.
  rewrite (proj1 (reachable_listing_prints_nothing
                    stand_in stand_in_lawful stable_engine
                    OrderFacts.stable_engine_order_by rising_world
                    (ex_intro _ _ eq_refl))).
  reflexivity.
Defined.
